(** * StaticMCP bridge: the session transport layer

    A shallow embedding of the session transport manager of [bridge.js]
    ([TransportManager.handleMcpRequest], [closeAllTransports] and the hosted
    [/mcp] route of [setupMcpRoutes]) and of the event log it hands to every
    new transport, together with the properties the specification states
    about them. *)

From Stdlib Require Import NArith ZArith Ascii String DecimalString DecimalN.
From stdpp Require Import base gmap strings list sorting.

Set Warnings "-register-all".
Local Open Scope string_scope.
Local Open Scope list_scope.

(** ** JSON values

    The fragment of JSON the bridge writes itself (the error bodies) and the
    opaque JSON-RPC messages the event log stores. *)

Inductive Json : Type :=
| JNull
| JNumber (z : Z)
| JString (s : string)
| JObject (fields : list (string * Json)).

(** ** The event log *)

Module EventStore.

Definition Message : Type := Json.

(** Modelled from the spec: [src/eventStore.ts] ([InMemoryEventStore]) is
    not among the sources; only its tests and its caller are.  An event is
    the immutable record of section 3. *)
Record Event : Type := mkEvent {
  eventId : string;
  streamId : string;
  payload : Message;
  sequence : N
}.

(** Modelled from the spec: the missing [InMemoryEventStore] state, the
    in-memory ordered structure events are appended to, and the counter
    from which the strictly increasing [sequence] is assigned at store
    time. *)
Record InMemoryEventStore : Type := mkStore {
  events : list Event;
  nextSequence : N
}.

(** Modelled from the spec: the log of [new InMemoryEventStore()], which
    holds no event. *)
Definition empty : InMemoryEventStore :=
  {| events := []; nextSequence := 0 |}.

(** Modelled from the spec: the alphabet [[a-z0-9]] of the tail of an id in
    [tests/eventStore.test.ts]. *)
Definition base36Alphabet : list ascii :=
  list_ascii_of_string "0123456789abcdefghijklmnopqrstuvwxyz".

(** Modelled from the spec: one character of that alphabet. *)
Definition base36Digit (n : N) : ascii :=
  nth (N.to_nat (n mod 36)) base36Alphabet "0"%char.

(** Modelled from the spec: eight characters of [[a-z0-9]], the tail the id
    pattern of [tests/eventStore.test.ts] requires; [entropy] is the random
    draw. *)
Definition randomSuffix (entropy : N) : string :=
  string_of_list_ascii
    (map (λ i, base36Digit (entropy / 36 ^ i)) [7; 6; 5; 4; 3; 2; 1; 0]%N).

(** Modelled from the spec: the digits of an id. *)
Definition decimal (n : N) : string :=
  NilEmpty.string_of_uint (N.to_uint n).

(** Modelled from the spec: the missing id generator.  The layout
    [<streamId>_<digits>_<8 of [a-z0-9]>] is the one the test
    "should store an event and return an event ID" checks; the digits are
    the event's [sequence], which lets the log order two ids of a stream,
    and the id embeds [streamId]. *)
Definition generateEventId (stream : string) (seq entropy : N) : string :=
  stream +:+ "_" +:+ decimal seq +:+ "_" +:+ randomSuffix entropy.

(** Modelled from the spec: the missing [storeEvent] ("append").  Always
    succeeds, returns the new id, and appends the event to the log. *)
Definition storeEvent (stream : string) (message : Message) (entropy : N)
    (st : InMemoryEventStore) : string * InMemoryEventStore :=
  let seq := nextSequence st in
  let eid := generateEventId stream seq entropy in
  (eid, {| events := events st ++ [mkEvent eid stream message seq];
           nextSequence := seq + 1 |}).

(** Modelled from the spec: the lookup of a previously issued id. *)
Definition lookupEvent (lastEventId : string) (st : InMemoryEventStore)
    : option Event :=
  find (λ ev, String.eqb (eventId ev) lastEventId) (events st).

(** Modelled from the spec: insertion into a list in ascending sequence
    order. *)
Fixpoint insertBySequence (e : Event) (l : list Event) : list Event :=
  match l with
  | [] => [e]
  | x :: r =>
      if (sequence e <=? sequence x)%N then e :: l
      else x :: insertBySequence e r
  end.

(** Modelled from the spec: ascending sequence order. *)
Definition sortBySequence (l : list Event) : list Event :=
  foldr insertBySequence [] l.

(** Modelled from the spec: the events a replay delivers, those of the
    stream of the looked-up event with a strictly greater sequence, in
    ascending sequence order. *)
Definition eventsAfter (last : Event) (st : InMemoryEventStore)
    : list Event :=
  sortBySequence
    (List.filter
       (λ ev, String.eqb (streamId ev) (streamId last)
              && (sequence last <? sequence ev)%N)
       (events st)).

(** Modelled from the spec: the missing [replayEventsAfter]
    ("replayAfter").  The sink is represented by the list of its
    invocations [(eventId, message)], in call order; the first component is
    the returned stream id, [""] when the id is not found. *)
Definition replayEventsAfter (lastEventId : string)
    (st : InMemoryEventStore) : string * list (string * Message) :=
  match lookupEvent lastEventId st with
  | None => ("", [])
  | Some last =>
      (streamId last,
       map (λ ev, (eventId ev, payload ev)) (eventsAfter last st))
  end.

(** A call of [storeEvent] as the log receives it. *)
Record Append : Type := mkAppend {
  toStream : string;
  message : Message;
  entropy : N
}.

(** The ids returned by a series of [storeEvent] calls, and the log they
    leave. *)
Fixpoint storeAll (calls : list Append) (st : InMemoryEventStore)
    : list string * InMemoryEventStore :=
  match calls with
  | [] => ([], st)
  | c :: rest =>
      let '(eid, st1) := storeEvent (toStream c) (message c) (entropy c) st in
      let '(ids, st2) := storeAll rest st1 in
      (eid :: ids, st2)
  end.

(** The events a series of [storeEvent] calls appends to a log whose
    counter stands at [seq]. *)
Fixpoint appended (seq : N) (calls : list Append) : list Event :=
  match calls with
  | [] => []
  | c :: rest =>
      mkEvent (generateEventId (toStream c) seq (entropy c))
              (toStream c) (message c) seq
      :: appended (seq + 1) rest
  end.

(** The event a call appends to a log that has seen [before]. *)
Definition eventOf (before : list Append) (c : Append) : Event :=
  let n := N.of_nat (length before) in
  mkEvent (generateEventId (toStream c) n (entropy c))
          (toStream c) (message c) n.

(** Stored earlier, by sequence. *)
Definition bySequence : relation Event :=
  λ a b, (sequence a < sequence b)%N.

(** The log after a history of calls on a new instance. *)
Definition logOf (history : list Append) : InMemoryEventStore :=
  (storeAll history empty).2.

(** The messages of [tests/eventStore.test.ts]. *)
Definition testMessage (name : string) (n : Z) : Message :=
  JObject [ ("jsonrpc", JString "2.0"); ("method", JString name);
            ("id", JNumber n) ].

(** The appends of the test "should only replay events from the same
    stream", with fixed random draws. *)
Definition interleaved : list Append :=
  [ mkAppend "stream-1" (testMessage "test1" 1) 11;
    mkAppend "stream-2" (testMessage "test2" 2) 22;
    mkAppend "stream-1" (testMessage "test3" 3) 33 ].

End EventStore.

(** ** The session transport manager *)

Module Bridge.

(** *** Values of the host environment *)

(** Object identity of a transport: every
    [new StreamableHTTPServerTransport(...)] (or test double put in the
    table) is a distinct object. *)
Definition TransportRef : Type := nat.

(** The part of an Express request the bridge reads:
    [req.headers['mcp-session-id']] ([None] is [undefined]), [req.method],
    [req.body] and the string value of [req.query.url]. *)
Record Request : Type := mkRequest {
  mcpSessionId : option string;
  method : string;
  body : Json;
  queryUrl : option string
}.

(** The response object: [res.headersSent], and the calls of [res.status]
    and [res.json] made on it, oldest first. *)
Inductive ResponseCall : Type :=
| Status (code : Z)
| SendJson (value : Json).

Record Response : Type := mkResponse {
  headersSent : bool;
  calls : list ResponseCall
}.

Definition freshResponse : Response :=
  {| headersSent := false; calls := [] |}.

Inductive Exception : Type :=
| TypeError (what : string)
| Failure (origin : string).

Inductive Result (A : Type) : Type :=
| Normal (a : A)
| Thrown (e : Exception).
Arguments Normal {A} a.
Arguments Thrown {A} e.

(** JavaScript truthiness of a value that is a string or [undefined]. *)
Definition truthy (v : option string) : bool :=
  match v with
  | Some s => negb (String.eqb s "")
  | None => false
  end.

(** *** What the SDK transport does when called

    [StreamableHTTPServerTransport] belongs to the SDK; a call into it is
    described by what it does to the bridge: the hooks it invokes, whether
    it starts the response, whether it throws. *)

Inductive Hook : Type :=
| SessionInitialized (entropy : N)
    (** the transport drew its id from [sessionIdGenerator] and called
        [onsessioninitialized] with it *)
| Closed (sessionId : option string)
    (** the transport called [onclose] while its [sessionId] property read
        as given *).

Record Effects : Type := mkEffects {
  hooks : list Hook;
  sendsHeaders : bool;
  raises : bool
}.

(** The surroundings of one request: whether [createServer] and
    [server.connect] throw, and what [transport.handleRequest] does. *)
Record Environment : Type := mkEnvironment {
  createServerRaises : bool;
  connectRaises : bool;
  handleRequestEffects : Effects
}.

(** One call of [close()]: whether it invokes [onclose] (and the
    [sessionId] the hook then reads), whether it throws. *)
Record CloseEffects : Type := mkCloseEffects {
  onclose : option (option string);
  closeRaises : bool
}.

(** *** [randomUUID] of node:crypto

    A version-4 UUID in its 8-4-4-4-12 lowercase text form, rendered from
    the random bits drawn. *)

Inductive UuidSlot : Type :=
| Hex (nibble : N)
| Dash
| Version
| Variant (nibble : N).

Definition hexRun (from count : nat) : list UuidSlot :=
  map (λ i, Hex (N.of_nat i)) (seq from count).

Definition uuidLayout : list UuidSlot :=
  hexRun 0 8 ++ [Dash] ++ hexRun 8 4 ++ [Dash; Version] ++ hexRun 12 3
  ++ [Dash; Variant 15] ++ hexRun 16 3 ++ [Dash] ++ hexRun 19 12.

Definition hexDigit (n : N) : ascii :=
  nth (N.to_nat (n mod 16)) (list_ascii_of_string "0123456789abcdef")
      "0"%char.

Definition renderSlot (entropy : N) (slot : UuidSlot) : ascii :=
  match slot with
  | Hex i => hexDigit (N.shiftr entropy (4 * i))
  | Dash => "-"%char
  | Version => "4"%char
  | Variant i => hexDigit (8 + N.shiftr entropy (4 * i) mod 4)
  end.

Definition randomUUID (entropy : N) : string :=
  string_of_list_ascii (map (renderSlot entropy) uuidLayout).

(** *** The session table

    [transports = {}] is a plain object: its own properties are the
    registered sessions, and a read of a key that is not an own property
    falls through to [Object.prototype]. *)

Record TransportManager : Type := mkManager {
  transports : gmap string TransportRef
}.

(** [new TransportManager()] *)
Definition newManager : TransportManager :=
  {| transports := ∅ |}.

Definition objectPrototypeMembers : list string :=
  [ "constructor"; "__proto__"; "hasOwnProperty"; "isPrototypeOf";
    "propertyIsEnumerable"; "toLocaleString"; "toString"; "valueOf";
    "__defineGetter__"; "__defineSetter__"; "__lookupGetter__";
    "__lookupSetter__" ].

(** The value of [this.transports[key]]. *)
Inductive Lookup : Type :=
| Own (t : TransportRef)
| Inherited (member : string)
| Undefined.

Definition readTable (table : gmap string TransportRef) (key : string)
    : Lookup :=
  match table !! key with
  | Some t => Own t
  | None =>
      if bool_decide (key ∈ objectPrototypeMembers) then Inherited key
      else Undefined
  end.

Definition readTransports (tm : TransportManager) (key : string) : Lookup :=
  readTable (transports tm) key.

Definition truthyLookup (v : Lookup) : bool :=
  match v with
  | Own _ | Inherited _ => true
  | Undefined => false
  end.

(** *** The state a handler runs in *)

Inductive Call : Type :=
| HandleRequest (t : TransportRef)
| Close (sessionId : string) (t : TransportRef).

(** The objects [handleMcpRequest] has created: the event log handed to
    each new transport, and the next free object identity. *)
Record Heap : Type := mkHeap {
  eventStores : gmap TransportRef EventStore.InMemoryEventStore;
  allocated : TransportRef
}.

Definition emptyHeap : Heap := {| eventStores := ∅; allocated := 0 |}.

(** The manager, the objects created so far, the response object of the
    request being served, and the calls made into transports so far (oldest
    first). *)
Record World : Type := mkWorld {
  manager : TransportManager;
  heap : Heap;
  res : Response;
  trace : list Call
}.

Definition M (A : Type) : Type := World → Result A * World.

#[export] Instance M_ret : MRet M := λ A a w, (Normal a, w).
#[export] Instance M_bind : MBind M := λ A B f m w,
  match m w with
  | (Normal a, w') => f a w'
  | (Thrown e, w') => (Thrown e, w')
  end.

Definition throw {A : Type} (e : Exception) : M A := λ w, (Thrown e, w).

(** [try { body } catch (error) { handler(error) }] *)
Definition tryCatch (body : M unit) (handler : Exception → M unit)
    : M unit := λ w,
  match body w with
  | (Normal a, w') => (Normal a, w')
  | (Thrown e, w') => handler e w'
  end.

Definition getManager : M TransportManager := λ w, (Normal (manager w), w).

Definition setTransports (f : gmap string TransportRef
                              → gmap string TransportRef) : M unit :=
  λ w, (Normal (),
        {| manager := {| transports := f (transports (manager w)) |};
           heap := heap w; res := res w; trace := trace w |}).

Definition getHeadersSent : M bool := λ w, (Normal (headersSent (res w)), w).

Definition record (c : Call) : M unit := λ w,
  (Normal (), {| manager := manager w; heap := heap w; res := res w;
                 trace := trace w ++ [c] |}).

(** [res.status(code).json(value)]; sending the body sends the headers. *)
Definition statusJson (code : Z) (value : Json) : M unit := λ w,
  (Normal (),
   {| manager := manager w; heap := heap w;
      res := {| headersSent := true;
                calls := calls (res w) ++ [Status code; SendJson value] |};
      trace := trace w |}).

(** The transport writes to the response. *)
Definition transportWrites (sends : bool) : M unit := λ w,
  (Normal (),
   {| manager := manager w; heap := heap w;
      res := {| headersSent := headersSent (res w) || sends;
                calls := calls (res w) |};
      trace := trace w |}).

(** [new InMemoryEventStore()] and
    [new StreamableHTTPServerTransport({ ..., eventStore, ... })]. *)
Definition newTransport : M TransportRef := λ w,
  let t := allocated (heap w) in
  (Normal t,
   {| manager := manager w;
      heap := {| eventStores := <[t := EventStore.empty]>
                                  (eventStores (heap w));
                 allocated := S t |};
      res := res w; trace := trace w |}).

(** *** The two protocol error bodies *)

Definition jsonRpcError (code : Z) (text : string) : Json :=
  JObject [ ("jsonrpc", JString "2.0");
            ("error", JObject [ ("code", JNumber code);
                                ("message", JString text) ]);
            ("id", JNull) ].

Definition badRequestBody : Json :=
  jsonRpcError (-32000)
    "Bad Request: No valid session ID provided or invalid initialization request".

Definition internalErrorBody : Json :=
  jsonRpcError (-32603) "Internal server error".

(** *** [TransportManager] *)

Section Manager.

(** [isInitializeRequest] of the SDK: whether a body has the shape of an
    initialization message. *)
Variable isInitializeRequest : Json → bool.

(** [onsessioninitialized: (sessionId) => {
      this.transports[sessionId] = transport; }] *)
Definition onsessioninitialized (transport : TransportRef)
    (sessionId : string) : M unit :=
  setTransports (<[sessionId := transport]>).

(** [transport.onclose = () => { const sid = transport.sessionId;
      if (sid && this.transports[sid]) delete this.transports[sid]; }] *)
Definition oncloseHook (sid : option string) : M unit :=
  tm ← getManager;
  if truthy sid && truthyLookup (readTransports tm (default "" sid))
  then setTransports (delete (default "" sid))
  else mret ().

Definition runHook (transport : TransportRef) (h : Hook) : M unit :=
  match h with
  | SessionInitialized entropy =>
      onsessioninitialized transport (randomUUID entropy)
  | Closed sid => oncloseHook sid
  end.

Fixpoint runHooks (transport : TransportRef) (hs : list Hook) : M unit :=
  match hs with
  | [] => mret ()
  | h :: rest => runHook transport h;; runHooks transport rest
  end.

(** [await transport.handleRequest(req, res, req.body)], for whatever
    value [transport] holds. *)
Definition callHandleRequest (transport : Lookup) (eff : Effects)
    : M unit :=
  match transport with
  | Own t =>
      record (HandleRequest t);;
      runHooks t (hooks eff);;
      transportWrites (sendsHeaders eff);;
      if raises eff then throw (Failure "transport.handleRequest")
      else mret ()
  | Inherited _ =>
      throw (TypeError "transport.handleRequest is not a function")
  | Undefined =>
      throw (TypeError "Cannot read properties of undefined")
  end.

(** [await createServer(sourcePath, isRemoteUrl)].  The manager hands
    [sourcePath] on as it received it, whatever value that is. *)
Definition createServer {S : Type} (sourcePath : S) (isRemote : bool)
    (env : Environment) : M unit :=
  if createServerRaises env then throw (Failure "createServer")
  else mret ().

Definition connect (transport : TransportRef) (env : Environment)
    : M unit :=
  if connectRaises env then throw (Failure "server.connect") else mret ().

(** The value of [sessionId && this.transports[sessionId]]. *)
Definition sessionLookup (tm : TransportManager)
    (sessionId : option string) : Lookup :=
  if truthy sessionId then readTransports tm (default "" sessionId)
  else Undefined.

(** [!sessionId && req.method === 'POST'
      && isInitializeRequest(req.body)] *)
Definition isInitialization (req : Request) : bool :=
  negb (truthy (mcpSessionId req)) && String.eqb (method req) "POST"
  && isInitializeRequest (body req).

(** The [catch] block of [handleMcpRequest]. *)
Definition respondInternalError (error : Exception) : M unit :=
  sent ← getHeadersSent;
  if negb sent then statusJson 500 internalErrorBody else mret ().

(** [TransportManager.handleMcpRequest].  The [return] of the rejecting
    branch is rendered by forwarding to the transport in the two other
    branches only.  [sourcePath] is only passed on to [createServer], so
    the manager takes whatever value the caller has for it: a text, or
    what the route passes when the configuration has none. *)
Definition handleMcpRequest {S : Type} (req : Request) (sourcePath : S)
    (isRemote : bool) (env : Environment) : M unit :=
  tryCatch
    (let sessionId := mcpSessionId req in
     tm ← getManager;
     let found := sessionLookup tm sessionId in
     if truthyLookup found then
       callHandleRequest found (handleRequestEffects env)
     else if isInitialization req then
       transport ← newTransport;
       createServer sourcePath isRemote env;;
       connect transport env;;
       callHandleRequest (Own transport) (handleRequestEffects env)
     else
       statusJson 400 badRequestBody)
    respondInternalError.

(** [await this.transports[sessionId].close()] *)
Definition callClose (sessionId : string) (eff : CloseEffects) : M unit :=
  tm ← getManager;
  match readTransports tm sessionId with
  | Own t =>
      record (Close sessionId t);;
      match onclose eff with
      | Some sid => oncloseHook sid
      | None => mret ()
      end;;
      if closeRaises eff then throw (Failure "transport.close")
      else mret ()
  | Inherited _ | Undefined =>
      throw (TypeError "this.transports[sessionId].close is not a function")
  end.

(** [for (const key in this.transports) body]: the keys are the own
    properties at the start, in the engine's property order [order]; a
    property deleted before it is reached is not visited. *)
Fixpoint forIn (order : list string) (loopBody : string → M unit)
    : M unit :=
  match order with
  | [] => mret ()
  | key :: rest =>
      tm ← getManager;
      match transports tm !! key with
      | Some _ => loopBody key
      | None => mret ()
      end;;
      forIn rest loopBody
  end.

(** [TransportManager.closeAllTransports]; [closing key] is what the
    [close()] made for [key] does.  The sweep is taken as a whole: no other
    request is served while a [close()] is awaited. *)
Definition closeAllTransports (order : list string)
    (closing : string → CloseEffects) : M unit :=
  forIn order (λ sessionId,
    tryCatch
      (callClose sessionId (closing sessionId);;
       setTransports (delete sessionId))
      (λ error, mret ())).

(** *** Serving a series of requests *)

Record Step : Type := mkStep {
  request : Request;
  sourcePath : string;
  remote : bool;
  environment : Environment
}.

(** One request on a response object of its own. *)
Definition serveOne (st : TransportManager * Heap) (s : Step)
    : Result unit * World :=
  handleMcpRequest (request s) (sourcePath s) (remote s) (environment s)
    {| manager := st.1; heap := st.2; res := freshResponse; trace := [] |}.

Definition serve (steps : list Step) (st : TransportManager * Heap)
    : TransportManager * Heap :=
  foldl (λ st s, let w := (serveOne st s).2 in (manager w, heap w)) st steps.

End Manager.

(** The world with another session table. *)
Definition withTransports (table : gmap string TransportRef) (w : World)
    : World :=
  {| manager := {| transports := table |};
     heap := heap w; res := res w; trace := trace w |}.

(** The world once [newTransport] has run. *)
Definition withNewTransport (w : World) : World :=
  {| manager := manager w;
     heap := {| eventStores := <[allocated (heap w) := EventStore.empty]>
                                 (eventStores (heap w));
                allocated := S (allocated (heap w)) |};
     res := res w; trace := trace w |}.

(** The response after the [catch] block of [handleMcpRequest] ran on
    it. *)
Definition afterCatch (r : Response) : Response :=
  if headersSent r then r
  else {| headersSent := true;
          calls := calls r ++ [Status 500; SendJson internalErrorBody] |}.

(** The session table after one hook, and after the hooks of one call,
    of the transport [transport]. *)
Definition applyHook (transport : TransportRef) (h : Hook)
    (table : gmap string TransportRef) : gmap string TransportRef :=
  match h with
  | SessionInitialized entropy => <[randomUUID entropy := transport]> table
  | Closed sid =>
      if truthy sid && truthyLookup (readTable table (default "" sid))
      then delete (default "" sid) table
      else table
  end.

Definition applyHooks (transport : TransportRef) (hs : list Hook)
    (table : gmap string TransportRef) : gmap string TransportRef :=
  foldl (λ tbl h, applyHook transport h tbl) table hs.

(** The world after [handleMcpRequest] forwarded a request to the
    registered transport [t]. *)
Definition forwarded (t : TransportRef) (eff : Effects) (w : World)
    : World :=
  let r := {| headersSent := headersSent (res w) || sendsHeaders eff;
              calls := calls (res w) |} in
  {| manager :=
       manager (withTransports
                  (applyHooks t (hooks eff) (transports (manager w))) w);
     heap := heap w;
     res := if raises eff then afterCatch r else r;
     trace := trace w ++ [HandleRequest t] |}.

(** The ids with which the hooks of one call signal a successful
    initialization. *)
Definition initializedIds (hs : list Hook) : list string :=
  omap (λ h, match h with
             | SessionInitialized entropy => Some (randomUUID entropy)
             | Closed _ => None
             end) hs.

(** The ids the success callback [onsessioninitialized] was called with
    while one request was served in the state [st].  The SDK calls it from
    within [transport.handleRequest]: it is called with none when the
    request was handed to no transport. *)
Definition signalledBy (isInitializeRequest : Json → bool)
    (st : TransportManager * Heap) (s : Step) : list string :=
  match trace (serveOne isInitializeRequest st s).2 with
  | [] => []
  | _ :: _ => initializedIds (hooks (handleRequestEffects (environment s)))
  end.

(** The ids the success callback was called with in a series of requests
    served from the state [st]. *)
Fixpoint signalled (isInitializeRequest : Json → bool) (steps : list Step)
    (st : TransportManager * Heap) : list string :=
  match steps with
  | [] => []
  | s :: rest =>
      signalledBy isInitializeRequest st s
      ++ signalled isInitializeRequest rest
           (serve isInitializeRequest [s] st)
  end.

(** Whether the [close()] made for [key] leaves [key] registered: it
    throws, and its close hook did not remove the key. *)
Definition staysRegistered (eff : CloseEffects) (key : string) : bool :=
  closeRaises eff
  && negb match onclose eff with
          | Some sid => truthy sid && String.eqb (default "" sid) key
          | None => false
          end.

(** The session table after the [close()] made for [key] and, when it
    returned, the [delete] that follows it. *)
Definition afterClose (eff : CloseEffects) (key : string)
    (table : gmap string TransportRef) : gmap string TransportRef :=
  let hooked :=
    match onclose eff with
    | Some sid => applyHook 0 (Closed sid) table
    | None => table
    end in
  if closeRaises eff then hooked else delete key hooked.

(** One turn of the loop of [closeAllTransports], on the session table
    and the calls made so far. *)
Definition sweepStep (closing : string → CloseEffects)
    (acc : gmap string TransportRef * list Call) (key : string)
    : gmap string TransportRef * list Call :=
  match acc.1 !! key with
  | Some t => (afterClose (closing key) key acc.1, acc.2 ++ [Close key t])
  | None => acc
  end.

Definition sweep (closing : string → CloseEffects) (order : list string)
    (acc : gmap string TransportRef * list Call)
    : gmap string TransportRef * list Call :=
  foldl (sweepStep closing) acc order.

(** The value of a field of a JSON object. *)
Fixpoint jsonField (name : string) (fields : list (string * Json))
    : option Json :=
  match fields with
  | [] => None
  | (key, value) :: rest =>
      if String.eqb key name then Some value else jsonField name rest
  end.

Definition isText (value : option Json) : bool :=
  match value with
  | Some (JString _) => true
  | _ => false
  end.

(** A stand-in for the SDK's [isInitializeRequest], for examples: the
    body is an object whose [method] is ["initialize"] and whose [params]
    hold a [protocolVersion], [capabilities] and the [name] and [version]
    of the client, the shape the SDK's schema of an initialization asks
    for. *)
Definition methodIsInitialize (value : Json) : bool :=
  match value with
  | JObject fields =>
      match jsonField "method" fields, jsonField "params" fields with
      | Some (JString text), Some (JObject params) =>
          String.eqb text "initialize"
          && isText (jsonField "protocolVersion" params)
          && match jsonField "capabilities" params,
                   jsonField "clientInfo" params with
             | Some (JObject _), Some (JObject client) =>
                 isText (jsonField "name" client)
                 && isText (jsonField "version" client)
             | _, _ => false
             end
      | _, _ => false
      end
  | _ => false
  end.

(** A stand-in for [new URL], for examples: the text starts with a
    scheme of the web. *)
Definition hasHttpScheme (text : string) : bool :=
  String.prefix "http://" text || String.prefix "https://" text.

(** An initialization message. *)
Definition initializeBody : Json :=
  JObject [ ("jsonrpc", JString "2.0"); ("id", JNumber 1);
            ("method", JString "initialize");
            ("params",
             JObject [ ("protocolVersion", JString "2025-03-26");
                       ("capabilities", JObject []);
                       ("clientInfo",
                        JObject [ ("name", JString "test-client");
                                  ("version", JString "1.0.0") ]) ]) ].

(** A successful initialization (the SDK signals the id drawn with
    [entropy]), one whose [createServer] fails (the transport, had it been
    handed the request, would have signalled the id drawn with
    [entropy + 1]), and one whose transport throws before it signals
    anything. *)
Definition sampleSteps (entropy : N) : list Step :=
  [ mkStep (mkRequest None "POST" initializeBody None) "/source" false
      (mkEnvironment false false
         (mkEffects [SessionInitialized entropy] true false));
    mkStep (mkRequest None "POST" initializeBody None) "/source" false
      (mkEnvironment true false
         (mkEffects [SessionInitialized (entropy + 1)] true false));
    mkStep (mkRequest None "POST" initializeBody None) "/source" false
      (mkEnvironment false false (mkEffects [] false true)) ].

(** The fixtures of the [TransportManager] tests: a manager whose table
    holds the given test doubles, an environment in which nothing throws,
    and one in which [handleRequest] rejects. *)
Definition managerWith (table : gmap string TransportRef) : TransportManager :=
  {| transports := table |}.

Definition quiet : Environment :=
  mkEnvironment false false (mkEffects [] false false).

Definition transportFails : Environment :=
  mkEnvironment false false (mkEffects [] false true).

(** *** The [/mcp] route of [setupMcpRoutes] *)

Record BridgeConfig : Type := mkConfig {
  staticSourcePath : option string;
  isHostedMode : bool;
  isRemoteUrl : bool;
  port : Z
}.

Section Routes.

(** [new URL(text)] does not throw. *)
Variable parsesAsURL : string → bool.
(** [path.resolve] of a text *)
Variable resolve : string → string.

(** [path.resolve(value)]: an argument that is not a text is refused with
    a [TypeError]. *)
Definition pathResolve (value : option string) : M (option string) :=
  match value with
  | Some text => mret (Some (resolve text))
  | None =>
      throw (TypeError
               "The paths[0] argument must be of type string. Received undefined")
  end.

Definition missingUrlBody : Json :=
  JObject [ ("error", JString "Missing required URL parameter");
            ("usage", JString "GET /mcp?url=https://staticmcp.com/mcp") ].

Definition invalidUrlBody (provided : string) : Json :=
  JObject [ ("error", JString "Invalid URL parameter");
            ("provided", JString provided) ].

(** The handler [setupMcpRoutes] installs with [app.all('/mcp', ...)];
    [handle] is [transportManager.handleMcpRequest], which is passed the
    source as the route has it: a text, or [undefined] ([None]) when the
    configuration of a remote source names none.  Nothing catches what
    [path.resolve] throws. *)
Definition setupMcpRoutes (config : BridgeConfig)
    (handle : Request → option string → bool → M unit) (req : Request)
    : M unit :=
  if isHostedMode config then
    let urlParam := queryUrl req in
    if negb (truthy urlParam) then statusJson 400 missingUrlBody
    else if negb (parsesAsURL (default "" urlParam)) then
      statusJson 400 (invalidUrlBody (default "" urlParam))
    else handle req urlParam true
  else
    sourcePath ← (if isRemoteUrl config then mret (staticSourcePath config)
                  else pathResolve (staticSourcePath config));
    handle req sourcePath (isRemoteUrl config).

End Routes.

End Bridge.

(** ** The static responder: names, paths and discovery

    The helpers of [bridge.js] that turn a source (a folder or a URL) into
    tools and resources, and [SchemaConverter] of [src/converter.ts].  A
    character of a model string stands for one UTF-16 code unit. *)

Module Static.
Import Bridge.

(** *** Failing computations *)

#[export] Instance Result_ret : MRet Result := λ A a, Normal a.
#[export] Instance Result_bind : MBind Result := λ A B f r,
  match r with
  | Normal a => f a
  | Thrown e => Thrown e
  end.

(** [try { return body } catch { return fallback }] *)
Definition orOnError {A : Type} (body : Result A) (fallback : A) : A :=
  match body with
  | Normal a => a
  | Thrown _ => fallback
  end.

(** *** Strings *)

(** [s.startsWith(search)] *)
Definition startsWith (s search : string) : bool :=
  bool_decide (list_ascii_of_string search `prefix_of` list_ascii_of_string s).

(** [s.endsWith(search)] *)
Definition endsWith (s search : string) : bool :=
  bool_decide (list_ascii_of_string search `suffix_of` list_ascii_of_string s).

Fixpoint removeFirstIn (pattern s : list ascii) : list ascii :=
  if bool_decide (pattern `prefix_of` s) then drop (length pattern) s
  else match s with
       | [] => []
       | c :: rest => c :: removeFirstIn pattern rest
       end.

(** [s.replace(pattern, '')] for a string [pattern]: the first occurrence
    is removed. *)
Definition removeFirst (pattern s : string) : string :=
  string_of_list_ascii
    (removeFirstIn (list_ascii_of_string pattern) (list_ascii_of_string s)).

(** The class [[a-zA-Z0-9_-]]. *)
Definition isNameChar (c : ascii) : bool :=
  let n := N_of_ascii c in
  ((97 <=? n) && (n <=? 122) || (65 <=? n) && (n <=? 90)
   || (48 <=? n) && (n <=? 57) || (n =? 95) || (n =? 45))%N.

(** [name.replace(/[^a-zA-Z0-9_-]/g, '_').substring(0, 64)], the body of
    [sanitizeToolName], which [discoverTools] and
    [discoverToolsFromManifest] repeat inline. *)
Definition sanitizeToolName (name : string) : string :=
  string_of_list_ascii
    (take 64 (map (λ c, if isNameChar c then c else "_"%char)
                  (list_ascii_of_string name))).

(** A name as the bridge wants it: at most 64 characters of
    [[a-zA-Z0-9_-]]. *)
Definition validToolName (name : string) : Prop :=
  (String.length name ≤ 64)%nat
  ∧ Forall (λ c, isNameChar c = true) (list_ascii_of_string name).

(** *** JSON values as JavaScript sees them

    What [JSON.parse] yields, and [undefined].  An object is given by its
    own properties in enumeration order, each name once; the numbers of the
    model are the integers. *)

Inductive JsValue : Type :=
| VUndefined
| VNull
| VBool (b : bool)
| VNumber (n : Z)
| VString (s : string)
| VArray (items : list JsValue)
| VObject (props : list (string * JsValue)).

Definition truthyValue (v : JsValue) : bool :=
  match v with
  | VUndefined | VNull => false
  | VBool b => b
  | VNumber n => negb (n =? 0)%Z
  | VString s => negb (String.eqb s "")
  | VArray _ | VObject _ => true
  end.

(** [a || b] *)
Definition orElse (a b : JsValue) : JsValue :=
  if truthyValue a then a else b.

(** [typeof v === 'object'] *)
Definition isTypeofObject (v : JsValue) : bool :=
  match v with
  | VNull | VArray _ | VObject _ => true
  | _ => false
  end.

Fixpoint lookupProp (props : list (string * JsValue)) (key : string)
    : JsValue :=
  match props with
  | [] => VUndefined
  | (name, value) :: rest =>
      if String.eqb name key then value else lookupProp rest key
  end.

(** [v.key], for the property names the bridge reads ([name], [type],
    [properties], ...), none of which a prototype provides: reading from
    [undefined] or [null] throws, reading from another value that lacks the
    property yields [undefined]. *)
Definition getProp (v : JsValue) (key : string) : Result JsValue :=
  match v with
  | VUndefined | VNull =>
      Thrown (TypeError "Cannot read properties of undefined or null")
  | VObject props => Normal (lookupProp props key)
  | _ => Normal VUndefined
  end.

(** [v?.key] *)
Definition getPropOptional (v : JsValue) (key : string) : JsValue :=
  match v with
  | VObject props => lookupProp props key
  | _ => VUndefined
  end.

(** The index of an array element as a property name. *)
Definition indexName (i : nat) : string := EventStore.decimal (N.of_nat i).

(** [Object.entries(v)] for a value that is not [undefined] or [null]. *)
Definition objectEntries (v : JsValue) : list (string * JsValue) :=
  match v with
  | VObject props => props
  | VArray items => imap (λ i item, (indexName i, item)) items
  | VString s =>
      imap (λ i c, (indexName i, VString (String c EmptyString)))
           (list_ascii_of_string s)
  | _ => []
  end.

(** Whether [name] is an own property. *)
Definition hasOwn (props : list (string * JsValue)) (name : string) : bool :=
  existsb (λ entry, String.eqb entry.1 name) props.

(** [a || b], where evaluating [b] may throw. *)
Definition orElseTry (a : JsValue) (b : Result JsValue) : Result JsValue :=
  if truthyValue a then Normal a else b.

Section Conversions.

(** [Number.prototype.toString] *)
Variable numberText : Z → string.

(** [String(v)], also the text a template literal inserts.  An object is
    rendered by the [toString] it has: that of [Object.prototype], which
    gives ["[object Object]"], unless an own property of that name hides
    it.  In a value read from JSON such a property is no function, and
    neither it nor [valueOf] yields a primitive: the conversion throws a
    [TypeError].  An array joins the renderings of its elements, [null]
    and [undefined] counting as empty. *)
Fixpoint stringOf (v : JsValue) : Result string :=
  match v with
  | VUndefined => Normal "undefined"
  | VNull => Normal "null"
  | VBool true => Normal "true"
  | VBool false => Normal "false"
  | VNumber n => Normal (numberText n)
  | VString s => Normal s
  | VArray items =>
      texts ← (fix each (elements : list JsValue) : Result (list string) :=
                 match elements with
                 | [] => Normal []
                 | item :: rest =>
                     text ← match item with
                            | VUndefined | VNull => Normal ""
                            | _ => stringOf item
                            end;
                     others ← each rest;
                     Normal (text :: others)
                 end) items;
      Normal (String.concat "," texts)
  | VObject props =>
      if hasOwn props "toString" then
        Thrown (TypeError "Cannot convert object to primitive value")
      else Normal "[object Object]"
  end.

End Conversions.

(** Whether [pattern] occurs in [s] as a run of consecutive characters. *)
Fixpoint occursIn (pattern s : list ascii) : bool :=
  bool_decide (pattern `prefix_of` s)
  || match s with
     | [] => false
     | _ :: rest => occursIn pattern rest
     end.

(** *** Records of [bridge.d.ts] *)

Inductive ZodKind : Type :=
| ZodString
| ZodNumber
| ZodInteger
| ZodBoolean
| ZodAny.

(** A validator: [z.string()], [z.number()], [z.number().int()],
    [z.boolean()] or [z.any()], after [.describe(described)] and, when
    [isOptional], [.optional()]. *)
Record Validator : Type := mkValidator {
  kind : ZodKind;
  described : JsValue;
  isOptional : bool
}.

(** The schema a tool carries: the JSON schema read from [_schema.json]
    ([discoverTools]), or what [SchemaConverter] built
    ([discoverToolsFromManifest]). *)
(** The object [zodValidators] of [SchemaConverter]: its own properties
    in the order they were created, and the validator its prototype has
    been set to, if it has. *)
Record ValidatorObject : Type := mkValidatorObject {
  ownValidators : list (string * Validator);
  prototypeValidator : option Validator
}.

Inductive ToolSchema : Type :=
| JsonSchema (schema : JsValue)
| Validators (object : ValidatorObject).

Record StaticTool : Type := mkTool {
  toolName : string;
  toolDescription : JsValue;
  inputSchema : ToolSchema
}.

(** A resource found in a folder. *)
Record StaticResource : Type := mkResource {
  uri : string;
  resourceName : string;
  resourceDescription : string;
  mimeType : string
}.

(** A resource taken from a manifest: the fields are whatever values the
    manifest holds. *)
Record ManifestResource : Type := mkManifestResource {
  declaredUri : JsValue;
  declaredName : JsValue;
  declaredDescription : JsValue;
  declaredMimeType : JsValue
}.

Record McpManifest : Type := mkManifest {
  manifestName : JsValue;
  manifestVersion : JsValue;
  manifestDescription : JsValue;
  manifestTools : JsValue;
  manifestResources : JsValue
}.

(** *** [SchemaConverter.jsonSchemaToMcpInputSchema] *)

(** [required.includes(propName)]: membership in an array, containment in
    a string; another truthy value has no [includes]. *)
Definition includesName (required : JsValue) (propName : string)
    : Result bool :=
  match required with
  | VArray items =>
      Normal (existsb (λ item, match item with
                               | VString s => String.eqb s propName
                               | _ => false
                               end) items)
  | VString s =>
      Normal (occursIn (list_ascii_of_string propName)
                       (list_ascii_of_string s))
  | _ => Thrown (TypeError "required.includes is not a function")
  end.

(** The [switch (propSchema.type)]. *)
Definition validatorKind (type : JsValue) : ZodKind :=
  match type with
  | VString text =>
      if String.eqb text "string" then ZodString
      else if String.eqb text "number" then ZodNumber
      else if String.eqb text "integer" then ZodInteger
      else if String.eqb text "boolean" then ZodBoolean
      else ZodAny
  | _ => ZodAny
  end.

(** One turn of the loop over the properties, up to the assignment;
    [None] is [continue]. *)
Definition convertProperty (required : JsValue) (propName : string)
    (propSchema : JsValue) : Result (option Validator) :=
  if negb (isTypeofObject propSchema) then Normal None
  else
    type ← getProp propSchema "type";
    if negb (truthyValue type) then Normal None
    else
      isRequired ← includesName required propName;
      description ← getProp propSchema "description";
      Normal (Some {| kind := validatorKind type;
                      described := orElse description (VString propName);
                      isOptional := negb isRequired |}).

(** [const zodValidators = {}] *)
Definition newValidatorObject : ValidatorObject :=
  {| ownValidators := []; prototypeValidator := None |}.

(** The own properties once [name] holds [validator]: an existing
    property keeps its place, a new one comes last. *)
Fixpoint setOwn (name : string) (validator : Validator)
    (own : list (string * Validator)) : list (string * Validator) :=
  match own with
  | [] => [(name, validator)]
  | (key, held) :: rest =>
      if String.eqb key name then (key, validator) :: rest
      else (key, held) :: setOwn name validator rest
  end.


(** The loops of the two discovery functions: every entry in turn, the
    first failure ends the loop. *)
Fixpoint collect {A B : Type} (turn : A → Result (option B)) (entries : list A)
    : Result (list B) :=
  match entries with
  | [] => Normal []
  | entry :: rest =>
      found ← turn entry;
      others ← collect turn rest;
      Normal (match found with
              | Some b => b :: others
              | None => others
              end)
  end.

Section SchemaConverter.

(** Zod is not part of the bridge.  [refusesAssignment inherited name]:
    the Zod schema object [inherited], or a class it is an instance of, has
    a getter (as [description]; the classes of Zod declare no setter) or a
    read-only property called [name], so that assigning [name] on an
    object whose prototype is [inherited] is refused. *)
Variable refusesAssignment : Validator → string → bool.

(** [zodValidators[propName] = validator].  The name [__proto__] reaches
    the setter of [Object.prototype], which makes the validator the
    prototype of [zodValidators] and creates no property.  Any other name
    creates or updates an own property, unless the prototype set before
    refuses the name: converter code is module code, hence strict, and the
    refused assignment throws. *)
Definition assignValidator (propName : string) (validator : Validator)
    (zodValidators : ValidatorObject) : Result ValidatorObject :=
  let assigned :=
    {| ownValidators :=
         setOwn propName validator (ownValidators zodValidators);
       prototypeValidator := prototypeValidator zodValidators |} in
  if String.eqb propName "__proto__" then
    Normal {| ownValidators := ownValidators zodValidators;
              prototypeValidator := Some validator |}
  else if existsb (λ entry, String.eqb entry.1 propName)
                  (ownValidators zodValidators) then Normal assigned
  else
    match prototypeValidator zodValidators with
    | Some inherited =>
        if refusesAssignment inherited propName then
          Thrown (TypeError "Cannot set property which has only a getter")
        else Normal assigned
    | None => Normal assigned
    end.

(** The loop over [Object.entries(properties)]. *)
Fixpoint convertProperties (required : JsValue)
    (entries : list (string * JsValue)) (zodValidators : ValidatorObject)
    : Result ValidatorObject :=
  match entries with
  | [] => Normal zodValidators
  | (propName, propSchema) :: rest =>
      converted ← convertProperty required propName propSchema;
      next ← match converted with
             | Some validator =>
                 assignValidator propName validator zodValidators
             | None => Normal zodValidators
             end;
      convertProperties required rest next
  end.

(** [SchemaConverter.jsonSchemaToMcpInputSchema] *)
Definition jsonSchemaToMcpInputSchema (jsonSchema : JsValue)
    : Result ValidatorObject :=
  declared ← getProp jsonSchema "properties";
  declaredRequired ← getProp jsonSchema "required";
  let properties := orElse declared (VObject []) in
  let required := orElse declaredRequired (VArray []) in
  if (length (objectEntries properties) =? 0)%nat then
    Normal newValidatorObject
  else convertProperties required (objectEntries properties)
         newValidatorObject.

(** *** Discovery from a manifest *)

(** One turn of the loop of [discoverToolsFromManifest]; [None] is an entry
    passed over. *)
Definition toolFromManifest (toolInfo : JsValue) : Result (option StaticTool) :=
  if negb (isTypeofObject toolInfo) then Normal None
  else
    declaredName ← getProp toolInfo "name";
    if negb (truthyValue declaredName) then Normal None
    else
      match declaredName with
      | VString text =>
          description ← getProp toolInfo "description";
          schema ← getProp toolInfo "inputSchema";
          validators ← jsonSchemaToMcpInputSchema schema;
          Normal (Some {| toolName := sanitizeToolName text;
                          toolDescription :=
                            orElse description
                                   (VString ("StaticMCP tool: " +:+ text));
                          inputSchema := Validators validators |})
      | _ => Thrown (TypeError "toolInfo.name.replace is not a function")
      end.

(** [discoverToolsFromManifest] *)
Definition discoverToolsFromManifest (manifest : McpManifest)
    : Result (list StaticTool) :=
  match manifestTools manifest with
  | VArray entries => collect toolFromManifest entries
  | _ => Normal []
  end.

End SchemaConverter.

(** *** The file system, the network and [JSON.parse] *)

(** The part of a [fetch] response the bridge reads: [response.ok],
    [response.status] and the outcome of [response.text()]. *)
Record FetchResponse : Type := mkFetchResponse {
  ok : bool;
  status : N;
  text : Result string
}.

Section Sources.

(** [Number.prototype.toString] *)
Variable numberText : Z → string.
(** [path.join] *)
Variable pathJoin : list string → string.
(** [new URL(relative, base).href] *)
Variable resolveUrl : string → string → Result string.
(** [fetch(url)] *)
Variable fetchUrl : string → Result FetchResponse.
(** [fs.readFile(path, 'utf-8')] *)
Variable fsReadFile : string → Result string.
(** [fs.readdir(path, { withFileTypes: true })], the entries' names *)
Variable fsReaddir : string → Result (list string).
(** [JSON.parse] *)
Variable parseJson : string → Result JsValue.
(** [a.localeCompare(b)] *)
Variable localeCompare : string → string → Z.

(** One turn of the loop of [discoverResourcesFromManifest].  The two
    template literals are evaluated only when the value before [||] is
    falsy. *)
Definition resourceFromManifest (resourceInfo : JsValue)
    : Result (option ManifestResource) :=
  if negb (isTypeofObject resourceInfo) then Normal None
  else
    declaredU ← getProp resourceInfo "uri";
    declaredN ← getProp resourceInfo "name";
    if negb (truthyValue (orElse declaredU declaredN)) then Normal None
    else
      uriOrDefault ←
        orElseTry declaredU
          (nameText ← stringOf numberText declaredN;
           Normal (VString ("file://" +:+ nameText)));
      description ← getProp resourceInfo "description";
      descriptionOrDefault ←
        orElseTry description
          (nameText ← stringOf numberText (orElse declaredN declaredU);
           Normal (VString ("StaticMCP resource: " +:+ nameText)));
      declaredMime ← getProp resourceInfo "mimeType";
      Normal (Some {|
        declaredUri := uriOrDefault;
        declaredName := orElse declaredN declaredU;
        declaredDescription := descriptionOrDefault;
        declaredMimeType := orElse declaredMime (VString "text/plain") |}).

(** [discoverResourcesFromManifest] *)
Definition discoverResourcesFromManifest (manifest : McpManifest)
    : Result (list ManifestResource) :=
  match manifestResources manifest with
  | VArray entries => collect resourceFromManifest entries
  | _ => Normal []
  end.

(** [readFile] *)
Definition readFile (filePath : string) : Result string :=
  if startsWith filePath "http" then
    response ← fetchUrl filePath;
    if ok response then text response
    else Thrown (Failure ("HTTP " +:+ EventStore.decimal (status response)))
  else fsReadFile filePath.

(** [readDir] *)
Definition readDir (dirPath : string) (isRemoteUrl : bool)
    : Result (list string) :=
  if isRemoteUrl then
    Thrown (Failure "Directory listing not supported for remote URLs")
  else fsReaddir dirPath.

(** [joinPath] *)
Definition joinPath (basePath : string) (segments : list string)
    : Result string :=
  if startsWith basePath "http" then
    let baseUrl :=
      if endsWith basePath "/" then basePath else basePath +:+ "/" in
    resolveUrl (String.concat "/" segments) baseUrl
  else Normal (pathJoin (basePath :: segments)).

Definition defaultManifest : McpManifest :=
  {| manifestName := VString "staticmcp-bridge";
     manifestVersion := VString "1.0.0";
     manifestDescription := VString "StaticMCP Bridge Server";
     manifestTools := VUndefined;
     manifestResources := VUndefined |}.

(** The object [loadManifest] builds from the parsed [mcp.json]. *)
Definition manifestOf (rawManifest : JsValue) : Result McpManifest :=
  serverInfo ← getProp rawManifest "serverInfo";
  capabilities ← getProp rawManifest "capabilities";
  topName ← getProp rawManifest "name";
  topVersion ← getProp rawManifest "version";
  topDescription ← getProp rawManifest "description";
  topTools ← getProp rawManifest "tools";
  topResources ← getProp rawManifest "resources";
  Normal {|
    manifestName :=
      orElse (orElse (getPropOptional serverInfo "name") topName)
             (VString "staticmcp-bridge");
    manifestVersion :=
      orElse (orElse (getPropOptional serverInfo "version") topVersion)
             (VString "1.0.0");
    manifestDescription :=
      orElse (orElse (getPropOptional serverInfo "description") topDescription)
             (VString "StaticMCP Bridge Server");
    manifestTools := orElse (getPropOptional capabilities "tools") topTools;
    manifestResources :=
      orElse (getPropOptional capabilities "resources") topResources |}.

(** [loadManifest] *)
Definition loadManifest (sourcePath : string) : McpManifest :=
  orOnError
    (manifestPath ← joinPath sourcePath ["mcp.json"];
     manifestContent ← readFile manifestPath;
     rawManifest ← parseJson manifestContent;
     manifestOf rawManifest)
    defaultManifest.

Definition defaultInputSchema : JsValue :=
  VObject [("type", VString "object"); ("properties", VObject [])].

(** The inner [try] of [discoverTools]: the schema of one tool folder. *)
Definition schemaOfTool (toolsDir toolName : string) : JsValue :=
  orOnError
    (schemaPath ← joinPath toolsDir [toolName; "_schema.json"];
     schemaContent ← readFile schemaPath;
     schema ← parseJson schemaContent;
     declared ← getProp schema "inputSchema";
     Normal (orElse declared defaultInputSchema))
    defaultInputSchema.

(** [discoverTools] *)
Definition discoverTools (sourcePath : string) (isRemoteUrl : bool)
    : list StaticTool :=
  orOnError
    (if isRemoteUrl then Normal []
     else
       toolsDir ← joinPath sourcePath ["tools"];
       toolDirs ← readDir toolsDir isRemoteUrl;
       Normal (map (λ name,
                      {| toolName := sanitizeToolName name;
                         toolDescription :=
                           VString ("StaticMCP tool: " +:+ name);
                         inputSchema :=
                           JsonSchema (schemaOfTool toolsDir name) |})
                   toolDirs))
    [].

(** The resource [discoverResources] makes of one directory entry. *)
Definition resourceOfFile (file : string) : option StaticResource :=
  if endsWith file ".json" then
    let name := removeFirst ".json" file in
    Some {| uri := "file://" +:+ name;
            resourceName := name;
            resourceDescription := "StaticMCP resource: " +:+ name;
            mimeType := "text/plain" |}
  else None.

(** [discoverResources] *)
Definition discoverResources (sourcePath : string) (isRemoteUrl : bool)
    : list StaticResource :=
  orOnError
    (if isRemoteUrl || startsWith sourcePath "http" then Normal []
     else
       resourcesDir ← joinPath sourcePath ["resources"];
       files ← readDir resourcesDir isRemoteUrl;
       Normal (omap resourceOfFile (files : list string)))
    [].

(** The file [readStaticResource] reads for a [uri]. *)
Definition staticResourcePath (sourcePath uri : string) : Result string :=
  let filename := removeFirst "file://" uri in
  joinPath sourcePath ["resources"; filename +:+ ".json"].

(** [readStaticResource] *)
Definition readStaticResource (sourcePath uri : string) : Result JsValue :=
  resourcePath ← staticResourcePath sourcePath uri;
  content ← readFile resourcePath;
  parseJson content.

Definition insertEntry (entry : string * JsValue)
    : list (string * JsValue) → list (string * JsValue) :=
  fix insert (sorted : list (string * JsValue)) :=
    match sorted with
    | [] => [entry]
    | next :: rest =>
        if (localeCompare entry.1 next.1 <=? 0)%Z then entry :: sorted
        else next :: insert rest
    end.

(** [entries.sort(([a], [b]) => a.localeCompare(b))]: the stable sort by
    key; for a comparator that orders the keys consistently every stable
    sort yields this list. *)
Definition sortEntries (entries : list (string * JsValue))
    : list (string * JsValue) :=
  foldr insertEntry [] entries.

(** The loop of [executeStaticTool]: one path segment per argument
    value. *)
Fixpoint descend (toolPath : string) (values : list JsValue)
    : Result string :=
  match values with
  | [] => Normal toolPath
  | value :: rest =>
      segment ← stringOf numberText value;
      next ← joinPath toolPath [segment];
      descend next rest
  end.

(** The file [executeStaticTool] reads for a tool and its arguments. *)
Definition staticToolPath (sourcePath name : string) (arguments_ : JsValue)
    : Result string :=
  toolDir ← joinPath sourcePath ["tools"; name];
  let sortedArgs :=
    sortEntries (objectEntries (orElse arguments_ (VObject []))) in
  toolPath ← descend toolDir (map snd sortedArgs);
  Normal (toolPath +:+ ".json").

(** [executeStaticTool] *)
Definition executeStaticTool (sourcePath name : string) (arguments_ : JsValue)
    : Result JsValue :=
  toolPath ← staticToolPath sourcePath name arguments_;
  content ← readFile toolPath;
  parseJson content.

End Sources.

(** A comparator for examples: the order of stdpp's encoding of strings,
    which tells every two strings apart. *)
Definition byEncoding (a b : string) : Z :=
  (Z.pos (encode a) - Z.pos (encode b))%Z.

(** *** Sample sources

    Stand-ins for the file system, the network and the parser, as the
    tests of the bridge mock them. *)

(** [path.join] as the tests mock it: [args.join('/')]. *)
Definition joinWithSlash (segments : list string) : string :=
  String.concat "/" segments.

(** A resolver for relative references without dots, against a base that
    ends in [/]. *)
Definition appendToBase (relative base : string) : Result string :=
  Normal (base +:+ relative).

(** The folder [/source], with three entries under [resources] and two
    under [tools]. *)
Definition sourceFolder (dirPath : string) : Result (list string) :=
  if String.eqb dirPath "/source/resources" then
    Normal ["resource1.json"; "resource2.json"; "not-json.txt"]
  else if String.eqb dirPath "/source/tools" then Normal ["tool1"; "tool2"]
  else Thrown (Failure "ENOENT").

Definition noFile (filePath : string) : Result string :=
  Thrown (Failure "ENOENT").

(** The files of [/source] that hold a response, each the text [{}]. *)
Definition sourceFiles (filePath : string) : Result string :=
  if String.eqb filePath "/source/resources/resource1.json"
     || String.eqb filePath "/source/tools/tool1.json"
  then Normal "{}"
  else Thrown (Failure "ENOENT").

(** A parser for the text [{}]. *)
Definition parseEmptyObject (content : string) : Result JsValue :=
  if String.eqb content "{}" then Normal (VObject [])
  else Thrown (Failure "Unexpected token").

(** A stand-in for what the schema objects of Zod refuse: the name of
    their getter [description]. *)
Definition zodGetters (inherited : Validator) (name : string) : bool :=
  String.eqb name "description".

Definition noNetwork (url : string) : Result FetchResponse :=
  Thrown (Failure "fetch failed").

Definition noJson (content : string) : Result JsValue :=
  Thrown (Failure "Unexpected token").

Definition decimalText (n : Z) : string :=
  if (n <? 0)%Z then "-" +:+ EventStore.decimal (Z.to_N (- n))
  else EventStore.decimal (Z.to_N n).

(** The manifest of the tests of [discoverToolsFromManifest] and
    [discoverResourcesFromManifest]. *)
Definition testManifest : McpManifest :=
  {| manifestName := VString "test";
     manifestVersion := VString "1.0.0";
     manifestDescription := VUndefined;
     manifestTools :=
       VArray [VObject [("name", VString "test-tool");
                        ("description", VString "A test tool");
                        ("inputSchema",
                         VObject [("type", VString "object");
                                  ("properties", VObject [])])];
               VObject [("name", VString "invalid@tool");
                        ("inputSchema", VObject [("type", VString "string")])];
               VString "invalid-entry";
               VObject [("description", VString "no name")]];
     manifestResources :=
       VArray [VObject [("uri", VString "file://test-resource");
                        ("name", VString "test-resource");
                        ("description", VString "A test resource");
                        ("mimeType", VString "application/json")];
               VObject [("name", VString "name-only-resource")]] |}.

(** A manifest with a tool that declares no [inputSchema] and a [null]
    among its resources. *)
Definition brokenManifest : McpManifest :=
  {| manifestName := VString "test";
     manifestVersion := VString "1.0.0";
     manifestDescription := VUndefined;
     manifestTools := VArray [VObject [("name", VString "valid-tool")]];
     manifestResources :=
       VArray [VObject [("name", VString "name-only-resource")]; VNull] |}.

(** A manifest with a resource whose [name] is an object that hides
    [toString] behind a number. *)
Definition unrenderableManifest : McpManifest :=
  {| manifestName := VString "test";
     manifestVersion := VString "1.0.0";
     manifestDescription := VUndefined;
     manifestTools := VUndefined;
     manifestResources :=
       VArray [VObject [("name", VObject [("toString", VNumber 1)])]] |}.


End Static.

(** ** Strings as character lists *)

Section StringLists.

Lemma list_ascii_of_string_app (s t : string) :
  list_ascii_of_string (s +:+ t)
  = list_ascii_of_string s ++ list_ascii_of_string t.
Proof. induction s as [|c s IH]; simpl; [done | by rewrite IH]. Qed.

Lemma list_ascii_of_string_inj (s t : string) :
  list_ascii_of_string s = list_ascii_of_string t → s = t.
Proof.
  intros H. rewrite <- (string_of_list_ascii_of_string s).
  rewrite <- (string_of_list_ascii_of_string t). by rewrite H.
Qed.

(** Two texts that agree, each cut at a separator its head does not
    contain, were cut at the same place. *)
Lemma split_at_separator (sep : ascii) (a b x y : list ascii) :
  sep ∉ a → sep ∉ b → a ++ sep :: x = b ++ sep :: y → a = b ∧ x = y.
Proof.
  revert b. induction a as [|c a IH]; intros [|d b] Ha Hb E; simpl in E.
  - by inversion E.
  - inversion E; subst. exfalso. apply Hb. left.
  - inversion E; subst. exfalso. apply Ha. left.
  - inversion E; subst.
    destruct (IH b) as [-> ->]; [| |done|done].
    + intros ?. apply Ha. by right.
    + intros ?. apply Hb. by right.
Qed.

End StringLists.


(** ** Event ids *)

Section EventIds.
Import EventStore.

Local Abbreviation chars := list_ascii_of_string.

Lemma decimal_digits (d : Decimal.uint) :
  "_"%char ∉ chars (NilEmpty.string_of_uint d).
Proof.
  induction d; simpl; rewrite ?elem_of_cons;
    try (intros [?|?]; [discriminate | done]).
  apply not_elem_of_nil.
Qed.

Lemma decimal_inj (n n' : N) : decimal n = decimal n' → n = n'.
Proof.
  unfold decimal. intros E.
  apply DecimalN.Unsigned.to_uint_inj.
  assert (H : NilEmpty.uint_of_string (NilEmpty.string_of_uint (N.to_uint n))
              = NilEmpty.uint_of_string
                  (NilEmpty.string_of_uint (N.to_uint n')))
    by (by rewrite E).
  rewrite !NilEmpty.usu in H. by inversion H.
Qed.

Lemma randomSuffix_length (e : N) : length (chars (randomSuffix e)) = 8.
Proof.
  unfold randomSuffix. by rewrite list_ascii_of_string_of_list_ascii.
Qed.

Lemma generateEventId_chars (s : string) (n e : N) :
  chars (generateEventId s n e)
  = (chars s ++ "_"%char :: chars (decimal n))
    ++ "_"%char :: chars (randomSuffix e).
Proof.
  unfold generateEventId.
  rewrite !list_ascii_of_string_app. simpl. by rewrite <- !app_assoc.
Qed.

(** An id determines the stream and the sequence it was minted for. *)
Lemma generateEventId_inj (s s' : string) (n n' e e' : N) :
  generateEventId s n e = generateEventId s' n' e' → s = s' ∧ n = n'.
Proof.
  intros E. apply (f_equal chars) in E.
  rewrite !generateEventId_chars in E.
  apply app_inj_2 in E as [E _];
    [| simpl; by rewrite ?randomSuffix_length].
  apply (f_equal reverse) in E.
  rewrite !reverse_app, !reverse_cons, <- !app_assoc in E. simpl in E.
  apply split_at_separator in E as [Ed Es];
    try (rewrite elem_of_reverse; apply decimal_digits).
  split.
  - apply list_ascii_of_string_inj. by apply (inj reverse).
  - apply decimal_inj, list_ascii_of_string_inj. by apply (inj reverse).
Qed.


End EventIds.

(** ** The log as a history of appends *)

Section EventLog.
Import EventStore.

Implicit Types (calls history : list Append) (st : InMemoryEventStore).
Implicit Types (ev last : Event) (l : list Event).

Lemma storeAll_spec calls st :
  storeAll calls st
  = (map eventId (appended (nextSequence st) calls),
     {| events := events st ++ appended (nextSequence st) calls;
        nextSequence := nextSequence st + N.of_nat (length calls) |}).
Proof.
  revert st. induction calls as [|c rest IH]; intros st.
  - simpl. rewrite app_nil_r, N.add_0_r. by destruct st.
  - cbn [storeAll storeEvent]. rewrite IH. cbn [events nextSequence appended map].
    rewrite <- app_assoc. simpl. f_equal. f_equal.
    rewrite Nat2N.inj_succ. lia.
Qed.

Lemma logOf_spec history :
  logOf history
  = {| events := appended 0 history;
       nextSequence := N.of_nat (length history) |}.
Proof. unfold logOf. by rewrite storeAll_spec. Qed.

Lemma appended_app n calls calls' :
  appended n (calls ++ calls')
  = appended n calls ++ appended (n + N.of_nat (length calls)) calls'.
Proof.
  revert n. induction calls as [|c rest IH]; intros n; simpl.
  - by rewrite N.add_0_r.
  - rewrite IH. do 3 f_equal. lia.
Qed.

Lemma appended_length n calls : length (appended n calls) = length calls.
Proof. revert n. induction calls; intros; simpl; [done | by f_equal]. Qed.

(** Every appended event carries the id minted for its own stream and
    sequence, and a sequence drawn from the counter. *)
Lemma appended_elem n calls ev :
  ev ∈ appended n calls →
  (n ≤ sequence ev < n + N.of_nat (length calls))%N
  ∧ ∃ c, c ∈ calls ∧ streamId ev = toStream c ∧ payload ev = message c
         ∧ eventId ev = generateEventId (toStream c) (sequence ev) (entropy c).
Proof.
  revert n. induction calls as [|c rest IH]; intros n; simpl.
  - by intros ?%elem_of_nil.
  - intros [->|H]%elem_of_cons.
    + simpl. split; [lia|]. exists c. split; [left | done].
    + destruct (IH _ H) as [Hb (c' & Hc & ?)]. split; [lia|].
      exists c'. split; [by right | done].
Qed.

Lemma appended_sorted n calls : StronglySorted bySequence (appended n calls).
Proof.
  revert n. induction calls as [|c rest IH]; intros n; simpl; constructor.
  - apply IH.
  - apply Forall_forall. intros ev [Hb _]%appended_elem.
    unfold bySequence. simpl. lia.
Qed.

(** Two events of one history with the same id are the same event. *)
Lemma appended_id_sequence n calls ev ev' :
  ev ∈ appended n calls → ev' ∈ appended n calls →
  eventId ev = eventId ev' →
  streamId ev = streamId ev' ∧ sequence ev = sequence ev'.
Proof.
  intros [_ (c & _ & Hs & _ & Hi)]%appended_elem
         [_ (c' & _ & Hs' & _ & Hi')]%appended_elem E.
  rewrite Hi, Hi' in E. apply generateEventId_inj in E as [E1 E2].
  split; [congruence | done].
Qed.

Lemma appended_ids_NoDup n calls : NoDup (map eventId (appended n calls)).
Proof.
  revert n. induction calls as [|c rest IH]; intros n; simpl.
  - constructor.
  - apply NoDup_cons. split; [|apply IH].
    intros (ev & E & Hin)%list_elem_of_fmap.
    pose proof (appended_elem _ _ _ Hin) as [Hb (c' & _ & _ & _ & Hi)].
    rewrite Hi in E. apply generateEventId_inj in E as [_ E]. lia.
Qed.




Lemma find_skip {A} (f : A → bool) (l1 l2 : list A) :
  Forall (λ x, f x = false) l1 → find f (l1 ++ l2) = find f l2.
Proof. induction 1 as [|x l1 Hx _ IH]; simpl; [done | by rewrite Hx]. Qed.


(** An id a history issued is found, and names the event it was issued
    for. *)
Lemma lookupEvent_issued n l1 ev l2 calls next :
  appended n calls = l1 ++ ev :: l2 →
  lookupEvent (eventId ev) {| events := l1 ++ ev :: l2; nextSequence := next |}
  = Some ev.
Proof.
  intros E. unfold lookupEvent. cbn [events].
  rewrite find_skip; [simpl; by rewrite String.eqb_refl|].
  apply Forall_forall. intros x Hx. apply String.eqb_neq. intros Hid.
  pose proof (appended_ids_NoDup n calls) as ND.
  rewrite E, map_app in ND. simpl in ND.
  apply NoDup_app in ND as (_ & ND & _).
  apply (ND (eventId ev)); [|left].
  rewrite <- Hid. by apply list_elem_of_fmap_2.
Qed.


Lemma insertBySequence_least ev l :
  Forall (bySequence ev) l → insertBySequence ev l = ev :: l.
Proof.
  destruct 1 as [|x l Hx _]; simpl; [done|].
  unfold bySequence in Hx. by rewrite (proj2 (N.leb_le _ _)) by lia.
Qed.

(** A list already in ascending sequence order is left as it is. *)
Lemma sortBySequence_sorted l :
  StronglySorted bySequence l → sortBySequence l = l.
Proof.
  unfold sortBySequence.
  induction 1 as [|ev l _ IH Hev]; cbn [foldr]; [done|].
  rewrite IH. by apply insertBySequence_least.
Qed.

Lemma filter_sorted (f : Event → bool) l :
  StronglySorted bySequence l → StronglySorted bySequence (List.filter f l).
Proof.
  induction 1 as [|ev l _ IH Hev]; simpl; [constructor|].
  destruct (f ev); [|done]. constructor; [done|].
  apply Forall_forall. intros x [Hx _]%list_elem_of_In%filter_In.
  rewrite Forall_forall in Hev. by apply Hev, list_elem_of_In.
Qed.

Lemma filter_none {A} (f : A → bool) (l : list A) :
  Forall (λ x, f x = false) l → List.filter f l = [].
Proof. induction 1 as [|x l Hx _ IH]; simpl; [done | by rewrite Hx]. Qed.

End EventLog.

(** ** Replay *)

Section Replay.
Import EventStore.

Implicit Types (before after history : list Append) (c : Append).

Lemma appended_split n before c after :
  appended n (before ++ c :: after)
  = appended n before
    ++ mkEvent (generateEventId (toStream c) (n + N.of_nat (length before))
                                (entropy c))
               (toStream c) (message c) (n + N.of_nat (length before))
    :: appended (n + N.of_nat (length before) + 1) after.
Proof. by rewrite appended_app. Qed.

Lemma events_logOf_split before c after :
  events (logOf (before ++ c :: after))
  = appended 0 before ++ eventOf before c
    :: appended (N.of_nat (length before) + 1) after.
Proof. rewrite logOf_spec. cbn [events]. by rewrite appended_split. Qed.

Lemma lookupEvent_logOf history ev :
  ev ∈ events (logOf history) →
  lookupEvent (eventId ev) (logOf history) = Some ev.
Proof.
  rewrite logOf_spec. cbn [events].
  intros (l1 & l2 & E)%list_elem_of_split. rewrite E.
  by eapply lookupEvent_issued.
Qed.

Lemma eventsAfter_filter last history :
  eventsAfter last (logOf history)
  = List.filter
      (λ ev, String.eqb (streamId ev) (streamId last)
             && (sequence last <? sequence ev)%N)
      (events (logOf history)).
Proof.
  unfold eventsAfter. apply sortBySequence_sorted, filter_sorted.
  rewrite logOf_spec. apply appended_sorted.
Qed.

Lemma eventsAfter_elem last history ev :
  ev ∈ eventsAfter last (logOf history) →
  ev ∈ events (logOf history) ∧ streamId ev = streamId last
  ∧ (sequence last < sequence ev)%N.
Proof.
  rewrite eventsAfter_filter.
  intros [Hin [Hs Hq]%andb_prop]%list_elem_of_In%filter_In.
  split; [by apply list_elem_of_In|].
  split; [by apply String.eqb_eq | by apply N.ltb_lt].
Qed.

(** What a replay after the id of [c] selects: the later events of the
    stream of [c], in store order. *)
Lemma eventsAfter_split before c after :
  eventsAfter (eventOf before c) (logOf (before ++ c :: after))
  = List.filter (λ ev, String.eqb (streamId ev) (toStream c))
      (appended (N.of_nat (length before) + 1) after).
Proof.
  rewrite eventsAfter_filter, events_logOf_split.
  rewrite List.filter_app. cbn [List.filter eventOf streamId sequence].
  rewrite N.ltb_irrefl, andb_false_r.
  rewrite filter_none; [simpl; apply List.filter_ext_in|].
  - intros ev [Hb _]%list_elem_of_In%appended_elem.
    rewrite (proj2 (N.ltb_lt _ _)) by lia. apply andb_true_r.
  - apply Forall_forall. intros ev [Hb _]%appended_elem.
    rewrite (proj2 (N.ltb_ge _ _)) by lia. apply andb_false_r.
Qed.

(** The selection read off the calls and the ids they returned. *)
Lemma sink_calls_of_appended (s : string) n after :
  map (λ ev, (eventId ev, payload ev))
      (List.filter (λ ev, String.eqb (streamId ev) s) (appended n after))
  = map (λ p : string * Append, (p.1, message p.2))
        (List.filter (λ p : string * Append, String.eqb (toStream p.2) s)
           (combine (map eventId (appended n after)) after)).
Proof.
  revert n. induction after as [|c rest IH]; intros n; simpl; [done|].
  destruct (String.eqb (toStream c) s); simpl; by rewrite IH.
Qed.

Lemma storeEvent_logOf before c :
  storeEvent (toStream c) (message c) (entropy c) (logOf before)
  = (eventId (eventOf before c), logOf (before ++ [c])).
Proof.
  rewrite (logOf_spec (before ++ _)), logOf_spec. unfold storeEvent, eventOf.
  cbn [events nextSequence eventId]. rewrite appended_app, length_app.
  simpl. do 2 f_equal. lia.
Qed.

Lemma storeAll_logOf history after :
  storeAll after (logOf history)
  = (map eventId (appended (N.of_nat (length history)) after),
     logOf (history ++ after)).
Proof.
  rewrite storeAll_spec, (logOf_spec (history ++ _)), logOf_spec.
  cbn [events nextSequence]. rewrite appended_app, length_app.
  simpl. do 2 f_equal. lia.
Qed.

End Replay.

(** ** Properties of the event log *)

Section EventLogProperties.
Import EventStore.

(** C6 (uniqueness).  The ids returned by any number of [storeEvent] calls
    on one log, on whatever streams and with whatever random draws, are
    pairwise distinct. *)
Theorem storeEvent_ids_pairwise_distinct (history : list Append) :
  NoDup (storeAll history empty).1.
Proof. rewrite storeAll_spec. apply appended_ids_NoDup. Qed.

(** C5 (stream tagging).  Replaying after an id returned by
    [storeEvent s m], at any later time of the log, returns exactly [s],
    whatever characters [s] contains. *)
Theorem replay_returns_owning_stream
    (before after : list Append) (s : string) (m : Message) (e : N) :
  let '(E, st1) := storeEvent s m e (logOf before) in
  (replayEventsAfter E (storeAll after st1).2).1 = s.
Proof.
  pose (c := mkAppend s m e).
  change (storeEvent s m e) with
    (storeEvent (toStream c) (message c) (entropy c)).
  rewrite storeEvent_logOf, storeAll_logOf, <- app_assoc. cbn [snd app].
  unfold replayEventsAfter. rewrite lookupEvent_logOf; [done|].
  rewrite events_logOf_split. apply elem_of_app. right. left.
Qed.

(** A replay after an issued id, at any later time of the log: the id is
    found, and what is delivered is the later appends to its stream, in
    store order. *)
Lemma replay_after_issued :
  ∀ (before after : list Append) (c : Append),
    let '(E, st1) :=
      storeEvent (toStream c) (message c) (entropy c) (logOf before) in
    let '(ids, st) := storeAll after st1 in
    ∃ last,
      lookupEvent E st = Some last ∧ eventId last = E
      ∧ replayEventsAfter E st
        = (toStream c,
           map (λ ev, (eventId ev, payload ev)) (eventsAfter last st))
      ∧ (replayEventsAfter E st).2
        = map (λ p : string * Append, (p.1, message p.2))
            (List.filter
               (λ p : string * Append,
                  String.eqb (toStream p.2) (toStream c))
               (combine ids after))
      ∧ eventsAfter last st
        = List.filter (λ ev, String.eqb (streamId ev) (toStream c))
            (drop (length (events st1)) (events st))
      ∧ Forall (λ ev, streamId ev = toStream c
                      ∧ (sequence last < sequence ev)%N)
          (eventsAfter last st)
      ∧ StronglySorted bySequence (eventsAfter last st)
      ∧ E ∉ map fst ((replayEventsAfter E st).2).
Proof.
  intros before after c.
  rewrite storeEvent_logOf, storeAll_logOf, <- app_assoc. cbn [app].
  set (st := logOf (before ++ c :: after)).
  set (last := eventOf before c).
  assert (Hin : last ∈ events st).
  { subst st. rewrite events_logOf_split. apply elem_of_app. right. left. }
  assert (Hlook : lookupEvent (eventId last) st = Some last)
    by (by apply lookupEvent_logOf).
  assert (Hreplay : replayEventsAfter (eventId last) st
            = (toStream c,
               map (λ ev, (eventId ev, payload ev)) (eventsAfter last st)))
    by (unfold replayEventsAfter; by rewrite Hlook).
  assert (Hsel : eventsAfter last st
            = List.filter (λ ev, String.eqb (streamId ev) (toStream c))
                (appended (N.of_nat (length before) + 1) after))
    by apply eventsAfter_split.
  assert (Hall : Forall (λ ev, streamId ev = toStream c
                               ∧ (sequence last < sequence ev)%N)
                   (eventsAfter last st)).
  { apply Forall_forall. intros ev Hev.
    by destruct (eventsAfter_elem _ _ _ Hev) as (_ & ? & ?). }
  exists last. repeat split; try done.
  - rewrite Hreplay. cbn [snd]. rewrite Hsel.
    rewrite length_app. cbn [length].
    replace (N.of_nat (length before + 1))
      with (N.of_nat (length before) + 1)%N by lia.
    apply sink_calls_of_appended.
  - rewrite Hsel. f_equal. subst st.
    rewrite !events_logOf_split. cbn [appended].
    by rewrite (cons_middle _ _ (appended _ after)), app_assoc,
      drop_app_length.
  - subst st. rewrite eventsAfter_filter. apply filter_sorted.
    rewrite logOf_spec. apply appended_sorted.
  - rewrite Hreplay. cbn [snd]. rewrite map_map. cbn [fst].
    intros (ev & E & Hev)%list_elem_of_fmap.
    destruct (eventsAfter_elem _ _ _ Hev) as (Hin' & _ & Hlt).
    subst st. rewrite logOf_spec in Hin, Hin'. cbn [events] in Hin, Hin'.
    destruct (appended_id_sequence _ _ _ _ Hin Hin' E) as [_ Hq]. lia.
Qed.

(** C1 (strict-after, ordering).  After three appends [M1], [M2], [M3] to
    one stream of a new log, a replay after the first id calls the sink
    with [(E2, M2)] then [(E3, M3)] and returns the stream.  In general a
    replay after an id finds the event it was issued for, and delivers the
    later appends to the same stream and nothing else, in store order:
    every delivered event has a strictly greater sequence than the
    looked-up one, sequences ascend, and the looked-up id is not
    delivered. *)
Theorem replay_delivers_later_events_in_order :
  (∀ (s : string) (m1 m2 m3 : Message) (e1 e2 e3 : N),
     let '(E1, st1) := storeEvent s m1 e1 empty in
     let '(E2, st2) := storeEvent s m2 e2 st1 in
     let '(E3, st3) := storeEvent s m3 e3 st2 in
     replayEventsAfter E1 st3 = (s, [(E2, m2); (E3, m3)]))
  ∧ (∀ (before after : list Append) (c : Append),
       let '(E, st1) :=
         storeEvent (toStream c) (message c) (entropy c) (logOf before) in
       let '(ids, st) := storeAll after st1 in
       ∃ last,
         lookupEvent E st = Some last ∧ eventId last = E
         ∧ replayEventsAfter E st
           = (toStream c,
              map (λ ev, (eventId ev, payload ev)) (eventsAfter last st))
         ∧ (replayEventsAfter E st).2
           = map (λ p : string * Append, (p.1, message p.2))
               (List.filter
                  (λ p : string * Append,
                     String.eqb (toStream p.2) (toStream c))
                  (combine ids after))
         ∧ eventsAfter last st
           = List.filter (λ ev, String.eqb (streamId ev) (toStream c))
               (drop (length (events st1)) (events st))
         ∧ Forall (λ ev, streamId ev = toStream c
                         ∧ (sequence last < sequence ev)%N)
             (eventsAfter last st)
         ∧ StronglySorted bySequence (eventsAfter last st)
         ∧ E ∉ map fst ((replayEventsAfter E st).2)).
Proof.
  split; [|exact replay_after_issued].
  intros s m1 m2 m3 e1 e2 e3.
  pose proof (replay_after_issued [] [mkAppend s m2 e2; mkAppend s m3 e3]
                (mkAppend s m1 e1)) as H.
  cbn [toStream message entropy] in H.
  change (logOf []) with empty in H.
  destruct (storeEvent s m1 e1 empty) as [E1 st1] eqn:H1.
  cbn [storeAll toStream message entropy] in H.
  destruct (storeEvent s m2 e2 st1) as [E2 st2] eqn:H2.
  destruct (storeEvent s m3 e3 st2) as [E3 st3] eqn:H3.
  destruct H as (last & _ & _ & Hr & Hcalls & _).
  rewrite Hr in Hcalls |- *. cbn [snd] in Hcalls. rewrite Hcalls.
  cbn [combine List.filter snd toStream]. rewrite String.eqb_refl.
  reflexivity.
Qed.

(** C7 (isolation).  With two distinct streams on one log, a replay after
    an id of stream [A] returns [A] and passes no event stored on stream
    [B] to the sink, wherever the events of [B] lie in store order. *)
Theorem replay_isolates_streams
    (history : list Append) (A B a : string) (evA evB : Event) :
  A ≠ B →
  evA ∈ events (logOf history) → eventId evA = a → streamId evA = A →
  evB ∈ events (logOf history) → streamId evB = B →
  (replayEventsAfter a (logOf history)).1 = A
  ∧ (eventId evB ∉ map fst ((replayEventsAfter a (logOf history)).2))
  ∧ (eventId evB, payload evB) ∉ (replayEventsAfter a (logOf history)).2.
Proof.
  intros Hne HA <- <- HB <-.
  unfold replayEventsAfter. rewrite (lookupEvent_logOf _ _ HA). cbn [fst snd].
  assert (Hids : eventId evB
                 ∉ map fst (map (λ ev, (eventId ev, payload ev))
                              (eventsAfter evA (logOf history)))).
  { rewrite map_map. cbn [fst].
    intros (ev & E & Hev)%list_elem_of_fmap.
    destruct (eventsAfter_elem _ _ _ Hev) as (Hin & Hs & _).
    rewrite logOf_spec in Hin, HB. cbn [events] in Hin, HB.
    destruct (appended_id_sequence _ _ _ _ HB Hin E) as [Hs' _].
    congruence. }
  split; [done|]. split; [done|].
  intros Hp. apply Hids.
  by apply (list_elem_of_fmap_2 fst) in Hp.
Qed.



Lemma replay_isolates_streams_witness :
  (replayEventsAfter "stream-1_0_0000000b" (logOf interleaved)).1
  = "stream-1"
  ∧ ("stream-2_1_0000000m"
     ∉ map fst ((replayEventsAfter "stream-1_0_0000000b"
                   (logOf interleaved)).2))
  ∧ ("stream-2_1_0000000m", testMessage "test2" 2)
    ∉ (replayEventsAfter "stream-1_0_0000000b" (logOf interleaved)).2.
Proof.
  apply (replay_isolates_streams interleaved "stream-1" "stream-2"
           "stream-1_0_0000000b"
           (mkEvent "stream-1_0_0000000b" "stream-1"
                    (testMessage "test1" 1) 0)
           (mkEvent "stream-2_1_0000000m" "stream-2"
                    (testMessage "test2" 2) 1)).
  - discriminate.
  - vm_compute. left.
  - reflexivity.
  - reflexivity.
  - vm_compute. right. left.
  - reflexivity.
Defined.


End EventLogProperties.

(** ** Session ids *)

Section SessionIds.
Import Bridge.

Lemma string_of_list_ascii_length (l : list ascii) :
  String.length (string_of_list_ascii l) = length l.
Proof. induction l; simpl; [done | by f_equal]. Qed.

Lemma randomUUID_length (entropy : N) :
  String.length (randomUUID entropy) = 36.
Proof.
  unfold randomUUID. by rewrite string_of_list_ascii_length, length_map.
Qed.

Lemma randomUUID_truthy (entropy : N) :
  truthy (Some (randomUUID entropy)) = true.
Proof.
  unfold truthy. apply negb_true_iff, String.eqb_neq. intros E.
  apply (f_equal String.length) in E. by rewrite randomUUID_length in E.
Qed.

(** A generated id never names a member of [Object.prototype]. *)
Lemma randomUUID_not_inherited (entropy : N) :
  randomUUID entropy ∉ objectPrototypeMembers.
Proof.
  intros H. unfold objectPrototypeMembers in H.
  repeat (apply elem_of_cons in H as [H|H];
          [apply (f_equal String.length) in H;
           by rewrite randomUUID_length in H|]).
  by apply elem_of_nil in H.
Qed.

End SessionIds.

(** ** Calls into a transport *)

Section TransportCalls.
Import Bridge.

Implicit Types (w : World) (tm : TransportManager) (t : TransportRef).

Lemma runHook_spec t h w :
  runHook t h w
  = (Normal (), withTransports (applyHook t h (transports (manager w))) w).
Proof.
  destruct w as [[table] hp r tr], h as [e|sid]; [done|].
  unfold runHook, oncloseHook, applyHook, readTransports, withTransports.
  unfold mbind, M_bind, getManager. cbn [manager transports].
  by destruct (truthy sid && _).
Qed.

Lemma runHooks_spec t hs w :
  runHooks t hs w
  = (Normal (), withTransports (applyHooks t hs (transports (manager w))) w).
Proof.
  revert w. induction hs as [|h rest IH]; intros w.
  - by destruct w as [[table] hp r tr].
  - cbn [runHooks]. unfold mbind, M_bind. rewrite runHook_spec, IH.
    by destruct w as [[table] hp r tr].
Qed.

End TransportCalls.

(** ** One request *)

Section OneRequest.
Import Bridge.

Variable isInitializeRequest : Json → bool.

Context {S : Type}.

Implicit Types (w : World) (t : TransportRef) (req : Request).
Implicit Types (env : Environment) (sp : S).

Local Abbreviation handle := (handleMcpRequest isInitializeRequest).

Lemma respondInternalError_spec error w :
  respondInternalError error w
  = (Normal (), {| manager := manager w; heap := heap w;
                   res := afterCatch (res w); trace := trace w |}).
Proof.
  destruct w as [tm hp [sent cs] tr]. unfold respondInternalError, afterCatch.
  unfold mbind, M_bind, getHeadersSent. cbn [res headersSent].
  by destruct sent.
Qed.

(** Forwarding to a registered transport. *)
Lemma callHandleRequest_own t eff w :
  callHandleRequest (Own t) eff w
  = (if raises eff then Thrown (Failure "transport.handleRequest")
     else Normal (),
     {| manager :=
          manager (withTransports
                     (applyHooks t (hooks eff) (transports (manager w))) w);
        heap := heap w;
        res := {| headersSent := headersSent (res w) || sendsHeaders eff;
                  calls := calls (res w) |};
        trace := trace w ++ [HandleRequest t] |}).
Proof.
  unfold callHandleRequest, mbind, M_bind, record.
  rewrite runHooks_spec. destruct w as [[table] hp [sent cs] tr].
  unfold transportWrites, withTransports. cbn [manager res trace].
  by destruct (raises eff).
Qed.

Lemma forward_spec t eff w :
  tryCatch (callHandleRequest (Own t) eff) respondInternalError w
  = (Normal (), forwarded t eff w).
Proof.
  unfold tryCatch, forwarded. rewrite callHandleRequest_own.
  destruct (raises eff); [|done]. by rewrite respondInternalError_spec.
Qed.

Lemma handle_routed req sp rem env w t :
  sessionLookup (manager w) (mcpSessionId req) = Own t →
  handle req sp rem env w
  = (Normal (), forwarded t (handleRequestEffects env) w).
Proof.
  intros Hfound. rewrite <- forward_spec.
  unfold handleMcpRequest, tryCatch, mbind, M_bind, getManager.
  by rewrite Hfound.
Qed.

Lemma handle_inherited req sp rem env w member :
  sessionLookup (manager w) (mcpSessionId req) = Inherited member →
  handle req sp rem env w
  = (Normal (), {| manager := manager w; heap := heap w;
                   res := afterCatch (res w); trace := trace w |}).
Proof.
  intros Hfound. unfold handleMcpRequest, tryCatch, mbind, M_bind, getManager.
  rewrite Hfound. cbn [truthyLookup callHandleRequest]. unfold throw.
  by rewrite respondInternalError_spec.
Qed.

Lemma handle_rejected req sp rem env w :
  sessionLookup (manager w) (mcpSessionId req) = Undefined →
  isInitialization isInitializeRequest req = false →
  handle req sp rem env w = statusJson 400 badRequestBody w.
Proof.
  intros Hfound Hinit.
  unfold handleMcpRequest, tryCatch, mbind, M_bind, getManager.
  by rewrite Hfound, Hinit.
Qed.

Lemma handle_initialization req sp rem env w :
  sessionLookup (manager w) (mcpSessionId req) = Undefined →
  isInitialization isInitializeRequest req = true →
  handle req sp rem env w
  = (Normal (),
     if createServerRaises env || connectRaises env then
       {| manager := manager w; heap := heap (withNewTransport w);
          res := afterCatch (res w); trace := trace w |}
     else
       forwarded (allocated (heap w)) (handleRequestEffects env)
                 (withNewTransport w)).
Proof.
  intros Hfound Hinit.
  destruct (createServerRaises env || connectRaises env) eqn:Hraise.
  - unfold handleMcpRequest, tryCatch, mbind, M_bind, getManager.
    rewrite Hfound, Hinit. cbn [truthyLookup].
    unfold newTransport, createServer, connect, throw, mret, M_ret.
    destruct (createServerRaises env); [by rewrite respondInternalError_spec|].
    simpl in Hraise. rewrite Hraise. by rewrite respondInternalError_spec.
  - apply orb_false_elim in Hraise as [Hc Hn].
    rewrite <- forward_spec.
    unfold handleMcpRequest, tryCatch, mbind at 1 2 3 4, M_bind, getManager.
    rewrite Hfound, Hinit. cbn [truthyLookup].
    unfold newTransport, createServer, connect, throw, mret, M_ret.
    by rewrite Hc, Hn.
Qed.

(** Nothing escapes [handleMcpRequest]. *)
Lemma handle_total req sp rem env w : (handle req sp rem env w).1 = Normal ().
Proof.
  destruct (sessionLookup (manager w) (mcpSessionId req)) as [t|member|]
    eqn:Hfound.
  - by erewrite handle_routed.
  - by erewrite handle_inherited.
  - destruct (isInitialization isInitializeRequest req) eqn:Hinit.
    + by rewrite handle_initialization.
    + by rewrite handle_rejected.
Qed.

Lemma sessionLookup_own tm sid t :
  sid ≠ "" → transports tm !! sid = Some t →
  sessionLookup tm (Some sid) = Own t.
Proof.
  intros Hne Ht. unfold sessionLookup, readTransports, readTable, truthy.
  rewrite (proj2 (String.eqb_neq _ _) Hne). simpl. by rewrite Ht.
Qed.

(** A session id that is neither registered nor the name of a member of
    [Object.prototype] finds nothing. *)
Lemma sessionLookup_unknown tm sid :
  transports tm !! sid = None → sid ∉ objectPrototypeMembers →
  sessionLookup tm (Some sid) = Undefined.
Proof.
  intros Ht Hp. unfold sessionLookup, readTransports, readTable.
  destruct (truthy (Some sid)); [|done]. simpl. rewrite Ht.
  by rewrite bool_decide_eq_false_2.
Qed.

(** Outside the names [Object.prototype] lends to every object, a request
    that neither bears a registered session id nor is an initialization is
    answered with the 400 body, and touches nothing else. *)
Lemma handle_rejects_unknown req sp rem env w :
  (∀ sid, mcpSessionId req = Some sid →
          transports (manager w) !! sid = None
          ∧ sid ∉ objectPrototypeMembers) →
  isInitialization isInitializeRequest req = false →
  handle req sp rem env w
  = (Normal (),
     {| manager := manager w; heap := heap w;
        res := {| headersSent := true;
                  calls := calls (res w)
                           ++ [Status 400; SendJson badRequestBody] |};
        trace := trace w |}).
Proof.
  intros Hsid Hinit. rewrite handle_rejected; [done| |done].
  destruct (mcpSessionId req) as [sid|]; [|done].
  destruct (Hsid sid eq_refl). by apply sessionLookup_unknown.
Qed.

End OneRequest.

(** ** Properties of [handleMcpRequest] *)

Section RequestProperties.
Import Bridge.

Variable isInitializeRequest : Json → bool.

Local Abbreviation handle := (handleMcpRequest isInitializeRequest).

(** C2 (rejection of unroutable requests), at an input where the code
    departs from it.  A request whose session id is ["constructor"] bears
    no id of a live session (the table of a new manager is empty) and is
    no initialization; it is not answered with the 400 body: the read of
    [this.transports["constructor"]] yields [Object], which is truthy, the
    call of its missing [handleRequest] throws, and the [catch] block
    answers 500 "Internal server error".  The table is left as it was. *)
Theorem handleMcpRequest_inherited_name_answered_500
    (m : string) (b : Json) (q : option string)
    (sp : string) (rem : bool) (env : Environment) :
  let req := mkRequest (Some "constructor") m b q in
  let out :=
    handle req sp rem env (mkWorld newManager emptyHeap freshResponse []) in
  transports newManager !! "constructor" = None
  ∧ isInitialization isInitializeRequest req = false
  ∧ out = (Normal (),
           mkWorld newManager emptyHeap
             {| headersSent := true;
                calls := [Status 500; SendJson internalErrorBody] |} [])
  ∧ calls (res out.2) ≠ [Status 400; SendJson badRequestBody].
Proof.
  intros req out.
  assert (Hout : out = (Normal (),
             mkWorld newManager emptyHeap
               {| headersSent := true;
                  calls := [Status 500; SendJson internalErrorBody] |} []))
    by (subst out; by erewrite handle_inherited).
  split; [done|]. split; [done|]. split; [done|]. by rewrite Hout.
Qed.

(** C3 (fatal-error path).  When the transport of an established session
    throws while handling a request: if no response headers have been sent
    by then, the reply is status 500 with the body
    [{"jsonrpc":"2.0","error":{"code":-32603,"message":"Internal server
    error"},"id":null}]; if they have, nothing more is written; in both
    cases [handleMcpRequest] completes normally. *)
Theorem established_session_failure_reply
    (req : Request) (sp : string) (rem : bool) (env : Environment)
    (w : World) (sid : string) (t : TransportRef) :
  mcpSessionId req = Some sid → sid ≠ "" →
  transports (manager w) !! sid = Some t →
  raises (handleRequestEffects env) = true →
  let out := handle req sp rem env w in
  let sent := headersSent (res w) || sendsHeaders (handleRequestEffects env) in
  out.1 = Normal ()
  ∧ trace out.2 = trace w ++ [HandleRequest t]
  ∧ (sent = false →
     res out.2
     = {| headersSent := true;
          calls :=
            calls (res w)
            ++ [ Status 500;
                 SendJson
                   (JObject
                      [ ("jsonrpc", JString "2.0");
                        ("error",
                         JObject
                           [ ("code", JNumber (-32603));
                             ("message", JString "Internal server error") ]);
                        ("id", JNull) ]) ] |})
  ∧ (sent = true →
     res out.2 = {| headersSent := true; calls := calls (res w) |}).
Proof.
  intros Hreq Hne Ht Hraise out sent. subst out.
  rewrite (handle_routed _ _ _ _ _ _ t)
    by (rewrite Hreq; by apply sessionLookup_own).
  unfold forwarded. rewrite Hraise. cbn [fst snd res trace].
  unfold afterCatch. cbn [headersSent calls]. fold sent.
  split; [done|]. split; [done|]. split; intros ->; done.
Qed.

End RequestProperties.

Lemma established_session_failure_reply_witness :
  let w := Bridge.mkWorld (Bridge.managerWith {[ "error-session" := 0 ]})
             Bridge.emptyHeap Bridge.freshResponse [] in
  let out :=
    Bridge.handleMcpRequest Bridge.methodIsInitialize
      (Bridge.mkRequest (Some "error-session") "POST" (JObject []) None)
      "/source" false
      (Bridge.mkEnvironment false false (Bridge.mkEffects [] false true)) w in
  out.1 = Bridge.Normal ()
  ∧ Bridge.calls (Bridge.res out.2)
    = [ Bridge.Status 500;
        Bridge.SendJson
          (JObject
             [ ("jsonrpc", JString "2.0");
               ("error",
                JObject [ ("code", JNumber (-32603));
                          ("message", JString "Internal server error") ]);
               ("id", JNull) ]) ].
Proof.
  intros w out.
  destruct (established_session_failure_reply Bridge.methodIsInitialize
              (Bridge.mkRequest (Some "error-session") "POST" (JObject []) None)
              "/source" false
              (Bridge.mkEnvironment false false (Bridge.mkEffects [] false true))
              w "error-session" 0)
    as (Hn & _ & H500 & _).
  - reflexivity.
  - discriminate.
  - reflexivity.
  - reflexivity.
  - split; [exact Hn|]. fold out in H500. by rewrite H500.
Defined.

(** ** The hosted route *)

Section HostedRoute.
Import Bridge.

Variable parsesAsURL : string → bool.
Variable resolve : string → string.

Local Abbreviation route := (setupMcpRoutes parsesAsURL resolve).

(** C10 (hosted-mode URL parameter).  In hosted mode a request whose [url]
    query parameter is missing is answered 400 with the body
    [{"error":"Missing required URL parameter","usage":"GET
    /mcp?url=https://staticmcp.com/mcp"}], and one whose [url] does not
    parse as a URL is answered 400 with the body [{"error":"Invalid URL
    parameter","provided":<the value>}].  Both bodies differ from the two
    JSON-RPC error bodies of the session layer, and the outcome is the
    same whatever [transportManager.handleMcpRequest] would do: it is not
    called. *)
Theorem hosted_route_rejects_bad_url
    (config : BridgeConfig)
    (handle : Request → option string → bool → M unit)
    (req : Request) (w : World) :
  isHostedMode config = true →
  truthy (queryUrl req) = false
  ∨ (∃ u, queryUrl req = Some u ∧ parsesAsURL u = false) →
  ∃ reply,
    route config handle req w
    = (Normal (),
       {| manager := manager w; heap := heap w;
          res := {| headersSent := true;
                    calls := calls (res w) ++ [Status 400; SendJson reply] |};
          trace := trace w |})
    ∧ (truthy (queryUrl req) = false →
       reply
       = JObject [ ("error", JString "Missing required URL parameter");
                   ("usage",
                    JString "GET /mcp?url=https://staticmcp.com/mcp") ])
    ∧ (∀ u, queryUrl req = Some u → u ≠ "" →
            reply = JObject [ ("error", JString "Invalid URL parameter");
                              ("provided", JString u) ])
    ∧ reply
      ≠ JObject
          [ ("jsonrpc", JString "2.0");
            ("error",
             JObject
               [ ("code", JNumber (-32000));
                 ("message",
                  JString "Bad Request: No valid session ID provided or invalid initialization request") ]);
            ("id", JNull) ]
    ∧ reply
      ≠ JObject [ ("jsonrpc", JString "2.0");
                  ("error",
                   JObject [ ("code", JNumber (-32603));
                             ("message", JString "Internal server error") ]);
                  ("id", JNull) ]
    ∧ ∀ handle', route config handle' req w = route config handle req w.
Proof.
  intros Hhosted Hbad. unfold setupMcpRoutes. rewrite Hhosted.
  destruct (truthy (queryUrl req)) eqn:Htruthy; cbn [negb].
  - destruct Hbad as [?|(u & Hu & Hparse)]; [done|].
    rewrite Hu. cbn [default from_option id]. rewrite Hparse. cbn [negb].
    exists (invalidUrlBody u). split; [done|]. split; [done|].
    split; [intros u' [= ->]; done|]. by repeat split.
  - exists missingUrlBody. split; [done|]. split; [done|]. split.
    + intros u Hu Hne. rewrite Hu in Htruthy. simpl in Htruthy.
      apply negb_false_iff, String.eqb_eq in Htruthy. done.
    + by repeat split.
Qed.

End HostedRoute.

Lemma hosted_route_rejects_bad_url_witness :
  ∃ reply,
    Bridge.setupMcpRoutes Bridge.hasHttpScheme id
      (Bridge.mkConfig None true false 3000)
      (λ _ _ _, Bridge.throw (Bridge.Failure "handleMcpRequest"))
      (Bridge.mkRequest None "GET" (JObject []) (Some "not a url"))
      (Bridge.mkWorld Bridge.newManager Bridge.emptyHeap Bridge.freshResponse [])
    = (Bridge.Normal (),
       Bridge.mkWorld Bridge.newManager Bridge.emptyHeap
         {| Bridge.headersSent := true;
            Bridge.calls := [Bridge.Status 400; Bridge.SendJson reply] |} [])
    ∧ reply = JObject [ ("error", JString "Invalid URL parameter");
                        ("provided", JString "not a url") ].
Proof.
  destruct (hosted_route_rejects_bad_url Bridge.hasHttpScheme id
              (Bridge.mkConfig None true false 3000)
              (λ _ _ _, Bridge.throw (Bridge.Failure "handleMcpRequest"))
              (Bridge.mkRequest None "GET" (JObject []) (Some "not a url"))
              (Bridge.mkWorld Bridge.newManager Bridge.emptyHeap Bridge.freshResponse []))
    as (reply & Hout & _ & Hinvalid & _).
  - reflexivity.
  - right. exists "not a url". split; reflexivity.
  - exists reply. split; [exact Hout | by apply Hinvalid].
Defined.

(** ** Bulk teardown *)

Section BulkTeardown.
Import Bridge.

Implicit Types (w : World) (table : gmap string TransportRef).
Implicit Types (closing : string → CloseEffects) (order : list string).

Lemma oncloseHook_spec sid w :
  oncloseHook sid w
  = (Normal (),
     withTransports (applyHook 0 (Closed sid) (transports (manager w))) w).
Proof. apply (runHook_spec 0 (Closed sid)). Qed.

(** One turn of the loop, for a key still registered. *)
Lemma closeTurn_spec key eff w t :
  transports (manager w) !! key = Some t →
  tryCatch (callClose key eff;; setTransports (delete key))
           (λ error, mret ()) w
  = (Normal (),
     {| manager :=
          manager (withTransports
                     (afterClose eff key (transports (manager w))) w);
        heap := heap w; res := res w; trace := trace w ++ [Close key t] |}).
Proof.
  intros Ht. unfold tryCatch, callClose, mbind, M_bind, getManager.
  unfold readTransports, readTable. rewrite Ht. unfold record, afterClose.
  destruct w as [[table] hp r tr]. cbn [manager res trace].
  destruct (onclose eff) as [sid|].
  - rewrite oncloseHook_spec. unfold withTransports, throw, setTransports.
    cbn [manager transports heap res trace].
    by destruct (closeRaises eff).
  - unfold withTransports, throw, setTransports, mret, M_ret.
    cbn [manager transports heap res trace].
    by destruct (closeRaises eff).
Qed.

(** The loop as a fold over the keys. *)
Lemma closeAllTransports_sweep order closing w :
  closeAllTransports order closing w
  = (Normal (),
     let swept := sweep closing order (transports (manager w), trace w) in
     {| manager := manager (withTransports swept.1 w);
        heap := heap w; res := res w; trace := swept.2 |}).
Proof.
  unfold closeAllTransports. revert w.
  induction order as [|key rest IH]; intros w.
  - by destruct w as [[table] hp r tr].
  - cbn [forIn]. unfold mbind at 1 2, M_bind at 1 2, getManager.
    change (sweep closing (key :: rest) ?acc)
      with (sweep closing rest (sweepStep closing acc key)).
    unfold sweepStep. cbn [fst snd].
    destruct (transports (manager w) !! key) as [t|] eqn:Ht.
    + rewrite (closeTurn_spec _ _ _ t Ht), IH.
      by destruct w as [[table] hp r tr].
    + unfold mret, M_ret. by rewrite IH.
Qed.

(** A close hook that reads the key its transport is registered under
    touches that key only. *)
Lemma afterClose_lookup eff key table t j :
  table !! key = Some t →
  (∀ s, onclose eff = Some (Some s) → s = key) →
  afterClose eff key table !! j
  = if decide (j = key)
    then (if staysRegistered eff key then table !! key else None)
    else table !! j.
Proof.
  intros Ht Hown. unfold afterClose, staysRegistered, applyHook.
  destruct (onclose eff) as [[s|]|] eqn:Hc.
  - rewrite (Hown s eq_refl). cbn [default from_option id truthy].
    unfold readTable. rewrite Ht. cbn [truthyLookup].
    rewrite String.eqb_refl, !andb_true_r.
    destruct (String.eqb key "") eqn:Hk; cbn [negb];
      destruct (closeRaises eff); cbn [andb negb];
      case_decide; subst;
      rewrite ?lookup_delete_eq, ?lookup_delete_ne by done; done.
  - cbn [truthy andb negb]. rewrite andb_true_r.
    destruct (closeRaises eff); case_decide; subst;
      rewrite ?lookup_delete_eq, ?lookup_delete_ne by done; done.
  - cbn [negb]. rewrite andb_true_r.
    destruct (closeRaises eff); case_decide; subst;
      rewrite ?lookup_delete_eq, ?lookup_delete_ne by done; done.
Qed.

Lemma omap_ext_elem {A B} (f g : A → option B) (l : list A) :
  (∀ x, x ∈ l → f x = g x) → omap f l = omap g l.
Proof.
  induction l as [|x l IH]; intros H; [done|]. cbn [omap list_omap].
  rewrite (H x) by left. rewrite IH; [done|].
  intros y Hy. apply H. by right.
Qed.

(** The sweep over keys visited once each. *)
Lemma sweep_spec closing order :
  NoDup order →
  (∀ key s, onclose (closing key) = Some (Some s) → s = key) →
  ∀ table tr,
    (∀ j, (sweep closing order (table, tr)).1 !! j
          = if decide (j ∈ order)
            then (if staysRegistered (closing j) j then table !! j else None)
            else table !! j)
    ∧ (sweep closing order (table, tr)).2
      = tr ++ omap (λ key, Close key <$> table !! key) order.
Proof.
  intros ND Hown. induction ND as [|key rest Hnotin ND IH]; intros table tr.
  - split; [intros j; by rewrite decide_False by apply not_elem_of_nil|].
    by rewrite app_nil_r.
  - change (sweep closing (key :: rest) ?acc)
      with (sweep closing rest (sweepStep closing acc key)).
    unfold sweepStep. cbn [fst snd].
    destruct (table !! key) as [t|] eqn:Ht.
    + destruct (IH (afterClose (closing key) key table) (tr ++ [Close key t]))
        as [IHt IHc].
      split.
      * intros j. rewrite IHt.
        rewrite !(afterClose_lookup _ _ _ t) by eauto.
        destruct (decide (j = key)) as [->|Hne].
        { rewrite (decide_False (P := key ∈ rest)) by done.
          by rewrite (decide_True (P := key ∈ key :: rest)) by left. }
        destruct (decide (j ∈ rest)) as [Hin|Hout].
        { by rewrite (decide_True (P := j ∈ key :: rest)) by (by right). }
        rewrite (decide_False (P := j ∈ key :: rest)); [done|].
        by intros [?|?]%elem_of_cons.
      * rewrite IHc. cbn [omap list_omap]. rewrite Ht. cbn [fmap option_fmap option_map].
        rewrite <- app_assoc. cbn [app]. do 2 f_equal.
        apply omap_ext_elem. intros j Hj.
        rewrite (afterClose_lookup _ _ _ t) by eauto.
        rewrite decide_False; [done|]. by intros ->.
    + destruct (IH table tr) as [IHt IHc]. split.
      * intros j. rewrite IHt.
        destruct (decide (j = key)) as [->|Hne].
        { rewrite (decide_False (P := key ∈ rest)) by done.
          rewrite (decide_True (P := key ∈ key :: rest)) by left.
          rewrite Ht. by destruct (staysRegistered _ _). }
        destruct (decide (j ∈ rest)) as [Hin|Hout].
        { by rewrite (decide_True (P := j ∈ key :: rest)) by (by right). }
        rewrite (decide_False (P := j ∈ key :: rest)); [done|].
        by intros [?|?]%elem_of_cons.
      * rewrite IHc. cbn [omap list_omap]. by rewrite Ht.
Qed.

(** C4 (bulk teardown), as the code has it.  Given the order in which
    the loop enumerates the table, and transports whose close hook reads
    the id they are registered under: [closeAllTransports] completes
    normally, calls [close()] once on every session of the table, a
    failing [close()] stops neither the sweep nor the later closes, and
    every session whose [close()] returned is removed.  A session whose
    [close()] throws is not removed by the sweep: it stays in the table
    unless its own close hook took it out.  The table is empty at the end
    when no [close()] throws. *)
Theorem closeAllTransports_closes_every_session
    (tm : TransportManager) (h0 : Heap) (r0 : Response) (tr0 : list Call)
    order closing :
  order ≡ₚ (map_to_list (transports tm)).*1 →
  (∀ key s, onclose (closing key) = Some (Some s) → s = key) →
  let out := closeAllTransports order closing (mkWorld tm h0 r0 tr0) in
  out.1 = Normal ()
  ∧ trace out.2 = tr0 ++ omap (λ key, Close key <$> transports tm !! key) order
  ∧ (∀ key t, transports tm !! key = Some t → Close key t ∈ trace out.2)
  ∧ (∀ key, transports (manager out.2) !! key
            = if staysRegistered (closing key) key
              then transports tm !! key else None)
  ∧ (∀ key, closeRaises (closing key) = false →
            transports (manager out.2) !! key = None)
  ∧ ((∀ key, key ∈ order → closeRaises (closing key) = false) →
     transports (manager out.2) = ∅)
  ∧ res out.2 = r0 ∧ heap out.2 = h0.
Proof.
  intros Horder Hown out.
  assert (ND : NoDup order).
  { rewrite Horder. apply NoDup_fst_map_to_list. }
  assert (Hkeys : ∀ key, key ∈ order ↔ is_Some (transports tm !! key)).
  { intros key. rewrite Horder, list_elem_of_fmap. split.
    - intros ([k t] & -> & Hin). apply elem_of_map_to_list in Hin. eauto.
    - intros [t Ht]. exists (key, t). split; [done|].
      by apply elem_of_map_to_list. }
  destruct (sweep_spec closing order ND Hown (transports tm) tr0)
    as [Htable Htrace].
  assert (Hout : out = (Normal (),
            let swept := sweep closing order (transports tm, tr0) in
            {| manager :=
                 manager (withTransports swept.1 (mkWorld tm h0 r0 tr0));
               heap := h0; res := r0; trace := swept.2 |}))
    by (subst out; by rewrite closeAllTransports_sweep).
  assert (Hfinal : ∀ key, transports (manager out.2) !! key
            = if staysRegistered (closing key) key
              then transports tm !! key else None).
  { intros key. rewrite Hout. cbn [snd manager withTransports transports].
    rewrite Htable. case_decide as Hin; [done|].
    destruct (transports tm !! key) eqn:Ht.
    - exfalso. apply Hin, Hkeys. eauto.
    - by destruct (staysRegistered _ _). }
  assert (Hgone : ∀ key, closeRaises (closing key) = false →
            transports (manager out.2) !! key = None).
  { intros key Hok. rewrite Hfinal. unfold staysRegistered. by rewrite Hok. }
  split; [by rewrite Hout|].
  split; [by rewrite Hout|].
  split.
  { intros key t Ht. rewrite Hout. cbn [snd trace]. rewrite Htrace.
    apply elem_of_app. right. apply list_elem_of_omap. exists key.
    split; [apply Hkeys; eauto | by rewrite Ht]. }
  split; [done|]. split; [done|]. split; [|by rewrite Hout].
  intros Hall. apply map_eq. intros key. rewrite lookup_empty.
  destruct (decide (key ∈ order)) as [Hin|Hnot].
  - by apply Hgone, Hall.
  - rewrite Hfinal. destruct (transports tm !! key) eqn:Ht.
    + exfalso. apply Hnot, Hkeys. eauto.
    + by destruct (staysRegistered _ _).
Qed.

Lemma closeAllTransports_closes_every_session_witness :
  let tm := managerWith {[ "session1" := 0; "session2" := 1 ]} in
  let closing := λ key, mkCloseEffects None (String.eqb key "session1") in
  let out :=
    closeAllTransports ["session1"; "session2"] closing
      (mkWorld tm emptyHeap freshResponse []) in
  out.1 = Normal ()
  ∧ trace out.2 = [Close "session1" 0; Close "session2" 1]
  ∧ transports (manager out.2) !! "session1" = Some 0
  ∧ transports (manager out.2) !! "session2" = None.
Proof.
  intros tm closing out.
  destruct (closeAllTransports_closes_every_session tm emptyHeap
              freshResponse []
              ["session1"; "session2"] closing)
    as (Hn & Htr & _ & Hfinal & _).
  - vm_compute. reflexivity.
  - intros key s. discriminate.
  - split; [exact Hn|]. split; [exact Htr|].
    split; [exact (Hfinal "session1") | exact (Hfinal "session2")].
Defined.

(** C4, where the code departs from the claim as stated: a session whose
    [close()] throws (the mock of the test "should handle transport close
    errors") is still in the table when [closeAllTransports] is done. *)
Lemma closeAllTransports_failed_close_stays_registered :
  let tm := managerWith {[ "session1" := 0 ]} in
  let out :=
    closeAllTransports ["session1"] (λ _, mkCloseEffects None true)
      (mkWorld tm emptyHeap freshResponse []) in
  out.1 = Normal ()
  ∧ trace out.2 = [Close "session1" 0]
  ∧ transports (manager out.2) !! "session1" = Some 0
  ∧ transports (manager out.2) ≠ ∅.
Proof.
  intros tm out.
  assert (H : transports (manager out.2) !! "session1" = Some 0)
    by (by vm_compute).
  split; [by vm_compute|]. split; [by vm_compute|]. split; [exact H|].
  intros E. rewrite E in H. by rewrite lookup_empty in H.
Qed.

End BulkTeardown.

(** ** The session table over a series of requests *)

Section SessionTable.
Import Bridge.

Variable isInitializeRequest : Json → bool.

Local Abbreviation handle := (handleMcpRequest isInitializeRequest).

Implicit Types (table : gmap string TransportRef) (t : TransportRef).

Lemma applyHook_lookup t h table sid t' :
  applyHook t h table !! sid = Some t' →
  table !! sid = Some t' ∨ sid ∈ initializedIds [h].
Proof.
  destruct h as [e|closed]; cbn [applyHook].
  - destruct (decide (sid = randomUUID e)) as [->|Hne].
    + intros _. right. left.
    + rewrite lookup_insert_ne by done. by left.
  - destruct (truthy closed && _); [|by left].
    intros H. left. by apply lookup_delete_Some in H as [_ H].
Qed.

Lemma applyHooks_lookup t hs table sid t' :
  applyHooks t hs table !! sid = Some t' →
  table !! sid = Some t' ∨ sid ∈ initializedIds hs.
Proof.
  unfold applyHooks. revert table.
  induction hs as [|h rest IH]; intros table; cbn [foldl]; [by left|].
  intros [H|H]%IH.
  - apply applyHook_lookup in H as [H|H]; [by left|]. right.
    change (h :: rest) with ([h] ++ rest).
    unfold initializedIds in *. rewrite omap_app. apply elem_of_app. by left.
  - right. change (h :: rest) with ([h] ++ rest).
    unfold initializedIds in *. rewrite omap_app. apply elem_of_app. by right.
Qed.

Lemma serve_cons (s : Step) (rest : list Step) (st : TransportManager * Heap) :
  serve isInitializeRequest (s :: rest) st
  = serve isInitializeRequest rest (serve isInitializeRequest [s] st).
Proof. reflexivity. Qed.

Lemma serve_app (steps later : list Step) (st : TransportManager * Heap) :
  serve isInitializeRequest (steps ++ later) st
  = serve isInitializeRequest later (serve isInitializeRequest steps st).
Proof. unfold serve. apply foldl_app. Qed.

Lemma signalled_app (steps later : list Step) (st : TransportManager * Heap) :
  signalled isInitializeRequest (steps ++ later) st
  = signalled isInitializeRequest steps st
    ++ signalled isInitializeRequest later
         (serve isInitializeRequest steps st).
Proof.
  revert st. induction steps as [|s rest IH]; intros st; [done|].
  cbn [app signalled]. by rewrite IH, <- app_assoc, <- serve_cons.
Qed.

(** Whatever a request does, a session id enters the table only through
    the success callback, called while a transport handles the request. *)
Lemma serveOne_registers_only_signalled (st : TransportManager * Heap)
    (s : Step) sid t' :
  transports (serve isInitializeRequest [s] st).1 !! sid = Some t' →
  transports st.1 !! sid = Some t'
  ∨ sid ∈ signalledBy isInitializeRequest st s.
Proof.
  unfold signalledBy, serve, serveOne. cbn [foldl fst].
  set (w := {| manager := st.1; heap := st.2; res := freshResponse;
               trace := [] |}).
  change st.1 with (manager w).
  destruct (sessionLookup (manager w) (mcpSessionId (request s)))
    as [t|member|] eqn:Hfound.
  - erewrite handle_routed by done. cbn [snd forwarded manager trace app].
    apply applyHooks_lookup.
  - erewrite handle_inherited by done. by left.
  - destruct (isInitialization isInitializeRequest (request s)) eqn:Hinit.
    + rewrite handle_initialization by done. cbn [snd].
      destruct (createServerRaises (environment s)
                || connectRaises (environment s)); [by left|].
      cbn [forwarded manager trace withNewTransport app].
      apply applyHooks_lookup.
    + rewrite handle_rejected by done. by left.
Qed.

Lemma serve_registers_only_signalled steps st sid t' :
  transports (serve isInitializeRequest steps st).1 !! sid = Some t' →
  transports st.1 !! sid = Some t'
  ∨ sid ∈ signalled isInitializeRequest steps st.
Proof.
  revert st. induction steps as [|s rest IH]; intros st; [by left|].
  rewrite serve_cons. cbn [signalled]. rewrite elem_of_app.
  intros [H|H]%IH; [|by right; right].
  apply serveOne_registers_only_signalled in H as [H|H]; [by left|].
  right. by left.
Qed.

(** An initialization whose server cannot be created or connected leaves
    the table as it was, and the success callback is not called. *)
Lemma failed_initialization_step (st : TransportManager * Heap) (s : Step) :
  isInitialization isInitializeRequest (request s) = true →
  createServerRaises (environment s) || connectRaises (environment s) = true →
  (serve isInitializeRequest [s] st).1 = st.1
  ∧ signalledBy isInitializeRequest st s = [].
Proof.
  intros Hinit Hraise. unfold signalledBy, serve, serveOne. cbn [foldl fst].
  assert (Hfound : ∀ tm, sessionLookup tm (mcpSessionId (request s))
                          = Undefined).
  { intros tm. unfold isInitialization in Hinit. unfold sessionLookup.
    by destruct (truthy (mcpSessionId (request s))). }
  rewrite handle_initialization by (cbn [manager]; done).
  by rewrite Hraise.
Qed.

(** C9 (registration only on success).  After any series of requests on
    a new manager, every session id in the table is one the success
    callback [onsessioninitialized] was called with, which happens only
    while a transport handles a request.  An initialization whose server
    cannot be created or connected, wherever it comes in a series, leaves
    the table as it was and has the callback called with nothing,
    whatever the transport would have signalled.  A generated id the
    callback never was called with, as that of a session whose
    initialization failed or did not complete, is absent from the table,
    and a request bearing it is rejected with the 400 body: it reaches no
    transport and changes nothing. *)
Theorem sessions_registered_only_on_initialization (steps : list Step) :
  let start := (newManager, emptyHeap) in
  let served := serve isInitializeRequest steps start in
  let tm := served.1 in
  (∀ sid t, transports tm !! sid = Some t →
            sid ∈ signalled isInitializeRequest steps start)
  ∧ (∀ before s,
       isInitialization isInitializeRequest (request s) = true →
       createServerRaises (environment s) || connectRaises (environment s)
       = true →
       (serve isInitializeRequest (before ++ [s]) start).1
       = (serve isInitializeRequest before start).1
       ∧ signalled isInitializeRequest (before ++ [s]) start
         = signalled isInitializeRequest before start)
  ∧ (∀ entropy,
       randomUUID entropy ∉ signalled isInitializeRequest steps start →
       transports tm !! randomUUID entropy = None
       ∧ ∀ m b q (sp : string) rem env r0 tr0,
           handle (mkRequest (Some (randomUUID entropy)) m b q) sp rem env
                  (mkWorld tm served.2 r0 tr0)
           = (Normal (),
              mkWorld tm served.2
                {| headersSent := true;
                   calls :=
                     calls r0
                     ++ [ Status 400;
                          SendJson
                            (JObject
                               [ ("jsonrpc", JString "2.0");
                                 ("error",
                                  JObject
                                    [ ("code", JNumber (-32000));
                                      ("message",
                                       JString "Bad Request: No valid session ID provided or invalid initialization request") ]);
                                 ("id", JNull) ]) ] |}
                tr0)).
Proof.
  intros start served tm.
  assert (Hreg : ∀ sid t, transports tm !! sid = Some t →
                          sid ∈ signalled isInitializeRequest steps start).
  { intros sid t [H|H]%serve_registers_only_signalled; [|done].
    unfold start, newManager in H. cbn [fst transports] in H.
    by rewrite lookup_empty in H. }
  split; [exact Hreg|]. split.
  { intros before s Hinit Hraise.
    destruct (failed_initialization_step
                (serve isInitializeRequest before start) s Hinit Hraise)
      as [Htable Hnone].
    rewrite serve_app, signalled_app. split; [exact Htable|].
    cbn [signalled]. rewrite Hnone. by rewrite !app_nil_r. }
  intros entropy Hnot.
  assert (Habsent : transports tm !! randomUUID entropy = None).
  { destruct (transports tm !! randomUUID entropy) eqn:Ht; [|done].
    exfalso. eauto. }
  split; [exact Habsent|]. intros m b q sp rem env r0 tr0.
  apply handle_rejects_unknown.
  - cbn [mcpSessionId manager]. intros sid [= <-].
    split; [done | apply randomUUID_not_inherited].
  - unfold isInitialization. cbn [mcpSessionId].
    by rewrite randomUUID_truthy.
Qed.

End SessionTable.

Lemma sessions_registered_only_on_initialization_witness :
  let served := Bridge.serve Bridge.methodIsInitialize (Bridge.sampleSteps 7)
                  (Bridge.newManager, Bridge.emptyHeap) in
  let tm := served.1 in
  Bridge.transports tm !! Bridge.randomUUID 8 = None
  ∧ Bridge.handleMcpRequest Bridge.methodIsInitialize
      (Bridge.mkRequest (Some (Bridge.randomUUID 8)) "POST" (JObject []) None)
      "/source" false
      (Bridge.mkEnvironment false false (Bridge.mkEffects [] false false))
      (Bridge.mkWorld tm served.2 Bridge.freshResponse [])
    = (Bridge.Normal (),
       Bridge.mkWorld tm served.2
         {| Bridge.headersSent := true;
            Bridge.calls :=
              [ Bridge.Status 400;
                Bridge.SendJson
                  (JObject
                     [ ("jsonrpc", JString "2.0");
                       ("error",
                        JObject
                          [ ("code", JNumber (-32000));
                            ("message",
                             JString "Bad Request: No valid session ID provided or invalid initialization request") ]);
                       ("id", JNull) ]) ] |} []).
Proof.
  intros served tm.
  destruct (sessions_registered_only_on_initialization
              Bridge.methodIsInitialize (Bridge.sampleSteps 7)) as (_ & _ & H).
  destruct (H 8%N) as [Habsent Hreject].
  - vm_compute. intros Hin.
    repeat (apply elem_of_cons in Hin as [Hin|Hin]; [discriminate|]).
    by apply elem_of_nil in Hin.
  - split; [exact Habsent|]. apply Hreject.
Defined.


(** ** The cases of the test suites *)

Section TestCases.
Import EventStore Bridge.

(** "should store an event and return an event ID" *)
Example stored_event_id :
  (storeEvent "test-stream" (testMessage "test" 1) 11 empty).1
  = "test-stream_0_0000000b".
Proof. reflexivity. Qed.

(** "should return empty string for invalid lastEventId" and "for empty
    lastEventId" *)
Example replay_invalid_or_empty_id :
  replayEventsAfter "invalid-id" empty = ("", [])
  ∧ replayEventsAfter "" empty = ("", []).
Proof. split; reflexivity. Qed.

(** "should only replay events from the same stream" *)
Example replay_same_stream_only :
  replayEventsAfter "stream-1_0_0000000b" (logOf interleaved)
  = ("stream-1", [("stream-1_2_0000000x", testMessage "test3" 3)]).
Proof. vm_compute. reflexivity. Qed.

(** "should not replay the lastEvent itself" *)
Example replay_not_the_last_event :
  let '(E, st) := storeEvent "test-stream" (testMessage "test" 1) 11 empty in
  replayEventsAfter E st = ("test-stream", []).
Proof. vm_compute. reflexivity. Qed.

(** "should handle request with existing session" *)
Example request_with_existing_session :
  trace (handleMcpRequest methodIsInitialize
           (mkRequest (Some "existing-session") "POST" (JObject []) None)
           "/source" false quiet
           (mkWorld (managerWith {[ "existing-session" := 0 ]}) emptyHeap
                    freshResponse [])).2
  = [HandleRequest 0].
Proof. vm_compute. reflexivity. Qed.

(** "should return error for invalid request" *)
Example invalid_request_rejected :
  calls (res (handleMcpRequest methodIsInitialize
                (mkRequest None "GET" (JObject []) None) "/source" false quiet
                (mkWorld newManager emptyHeap freshResponse [])).2)
  = [Status 400; SendJson badRequestBody].
Proof. vm_compute. reflexivity. Qed.

(** "should handle transport errors and return 500" and "should not send
    response if headers already sent" *)
Example transport_error_replies :
  calls (res (handleMcpRequest methodIsInitialize
                (mkRequest (Some "error-session") "POST" (JObject []) None)
                "/source" false transportFails
                (mkWorld (managerWith {[ "error-session" := 0 ]}) emptyHeap
                         freshResponse [])).2)
  = [Status 500; SendJson internalErrorBody]
  ∧ calls (res (handleMcpRequest methodIsInitialize
                  (mkRequest (Some "error-session") "POST" (JObject []) None)
                  "/source" false transportFails
                  (mkWorld (managerWith {[ "error-session" := 0 ]}) emptyHeap
                           (mkResponse true []) [])).2)
    = [].
Proof. split; vm_compute; reflexivity. Qed.

(** "should close all transports" *)
Example close_all_transports :
  let out :=
    closeAllTransports ["session1"; "session2"]
      (λ _, mkCloseEffects None false)
      (mkWorld (managerWith {[ "session1" := 0; "session2" := 1 ]}) emptyHeap
               freshResponse []) in
  trace out.2 = [Close "session1" 0; Close "session2" 1]
  ∧ transports (manager out.2) = ∅.
Proof. split; vm_compute; reflexivity. Qed.

(** "should handle hosted mode URL validation", third request *)
Example hosted_route_forwards_valid_url :
  ∀ handle req w,
    queryUrl req = Some "https://example.com" →
    setupMcpRoutes hasHttpScheme id (mkConfig None true false 3000)
      handle req w
    = handle req (Some "https://example.com") true w.
Proof. intros handle req w Hq. unfold setupMcpRoutes. by rewrite Hq. Qed.

End TestCases.

(** ** Further properties of the session transport manager *)

Section ManagerProperties.
Import Bridge.

Variable isInitializeRequest : Json → bool.

Local Abbreviation handle := (handleMcpRequest isInitializeRequest).

(** X1.  Whatever the request, the table and the behaviour of the SDK,
    [handleMcpRequest] completes without throwing, and what it writes on
    the response itself is nothing, the 400 body or the 500 body; the 400
    body is written only when no transport was called and nothing else
    changed. *)
Theorem handleMcpRequest_contains_failures_and_writes_one_reply
    (req : Request) (sp : string) (rem : bool) (env : Environment)
    (w : World) :
  let out := handle req sp rem env w in
  out.1 = Normal ()
  ∧ (calls (res out.2) = calls (res w)
     ∨ (calls (res out.2)
        = calls (res w) ++ [Status 400; SendJson badRequestBody]
        ∧ manager out.2 = manager w ∧ heap out.2 = heap w
        ∧ trace out.2 = trace w)
     ∨ calls (res out.2)
       = calls (res w) ++ [Status 500; SendJson internalErrorBody]).
Proof.
  intros out. subst out. split; [apply handle_total|].
  assert (Hcatch : ∀ r : Response,
            calls (afterCatch r) = calls r
            ∨ calls (afterCatch r)
              = calls r ++ [Status 500; SendJson internalErrorBody]).
  { intros [sent cs]. unfold afterCatch. cbn [headersSent calls].
    destruct sent; [by left | by right]. }
  destruct (sessionLookup (manager w) (mcpSessionId req)) as [t|member|]
    eqn:Hfound.
  - erewrite handle_routed by done. cbn [snd forwarded res].
    destruct (raises (handleRequestEffects env)); [|by left].
    destruct (Hcatch {| headersSent := headersSent (res w)
                                       || sendsHeaders (handleRequestEffects env);
                        calls := calls (res w) |}) as [H|H];
      cbn [calls] in H; [by left | by right; right].
  - erewrite handle_inherited by done. cbn [snd res].
    destruct (Hcatch (res w)) as [H|H]; [by left | by right; right].
  - destruct (isInitialization isInitializeRequest req) eqn:Hinit.
    + rewrite handle_initialization by done. cbn [snd].
      destruct (createServerRaises env || connectRaises env).
      * cbn [res]. destruct (Hcatch (res w)) as [H|H];
          [by left | by right; right].
      * cbn [forwarded res withNewTransport].
        destruct (raises (handleRequestEffects env)); [|by left].
        destruct (Hcatch {| headersSent := headersSent (res w)
                                           || sendsHeaders (handleRequestEffects env);
                            calls := calls (res w) |}) as [H|H];
          cbn [calls] in H; [by left | by right; right].
    + rewrite handle_rejected by done. right. left.
      by destruct w as [tm hp r tr].
Qed.

(** X2.  A request bearing the id of a registered session is handed to that
    session's transport, once; no transport is created, and when the
    transport returns normally the manager writes nothing on the response.
    When the transport fires no hook, the table is left as it was. *)
Theorem known_session_is_forwarded
    (req : Request) (sp : string) (rem : bool) (env : Environment)
    (w : World) (sid : string) (t : TransportRef) :
  mcpSessionId req = Some sid → sid ≠ "" →
  transports (manager w) !! sid = Some t →
  let out := handle req sp rem env w in
  trace out.2 = trace w ++ [HandleRequest t]
  ∧ heap out.2 = heap w
  ∧ (raises (handleRequestEffects env) = false →
     calls (res out.2) = calls (res w))
  ∧ (hooks (handleRequestEffects env) = [] → manager out.2 = manager w).
Proof.
  intros Hreq Hne Ht out. subst out.
  rewrite (handle_routed _ _ _ _ _ _ t)
    by (rewrite Hreq; by apply sessionLookup_own).
  cbn [snd forwarded trace heap res manager].
  split; [done|]. split; [done|]. split.
  - by intros ->.
  - intros ->. by destruct w as [[table] hp r tr].
Qed.

(** X3.  A valid initialization (no session id, POST, initialize-shaped
    body) whose server is created and connected, and for which the SDK
    signals the id drawn with [entropy]: one transport is created with an
    empty event log of its own, it is registered under that id and handed
    the request; a later request bearing the id is handed to the same
    transport. *)
Theorem initialization_registers_and_routes
    (req : Request) (sp : string) (rem : bool) (env : Environment)
    (w : World) (entropy : N) :
  truthy (mcpSessionId req) = false → method req = "POST" →
  isInitializeRequest (body req) = true →
  createServerRaises env = false → connectRaises env = false →
  hooks (handleRequestEffects env) = [SessionInitialized entropy] →
  let out := handle req sp rem env w in
  let t := allocated (heap w) in
  transports (manager out.2) = <[randomUUID entropy := t]> (transports (manager w))
  ∧ eventStores (heap out.2) !! t = Some EventStore.empty
  ∧ allocated (heap out.2) = S t
  ∧ trace out.2 = trace w ++ [HandleRequest t]
  ∧ ∀ m b q (sp' : string) rem' env' r0,
      trace (handle (mkRequest (Some (randomUUID entropy)) m b q) sp' rem' env'
               (mkWorld (manager out.2) (heap out.2) r0 [])).2
      = [HandleRequest t].
Proof.
  intros Hsid Hmethod Hbody Hcreate Hconnect Hhooks out t.
  assert (Hfound : sessionLookup (manager w) (mcpSessionId req) = Undefined)
    by (unfold sessionLookup; by rewrite Hsid).
  assert (Hinit : isInitialization isInitializeRequest req = true)
    by (unfold isInitialization; by rewrite Hsid, Hmethod, Hbody).
  subst out. rewrite handle_initialization by done.
  rewrite Hcreate, Hconnect. cbn [orb snd].
  unfold forwarded. rewrite Hhooks.
  cbn [manager withTransports withNewTransport heap trace transports
       applyHooks foldl applyHook eventStores allocated].
  split; [done|]. split; [by rewrite lookup_insert_eq|].
  split; [done|]. split; [done|].
  intros m b q sp' rem' env' r0.
  erewrite handle_routed; [done|]. cbn [mcpSessionId manager].
  apply sessionLookup_own.
  - intros E. apply (f_equal String.length) in E.
    by rewrite randomUUID_length in E.
  - cbn [transports]. apply lookup_insert_eq.
Qed.

(** X4.  An initialization whose [createServer] or [server.connect] throws
    is answered with the 500 body (on a response not yet begun); no session
    is registered and no transport is handed the request, though a
    transport object and its event log were created. *)
Theorem failed_initialization_registers_nothing
    (req : Request) (sp : string) (rem : bool) (env : Environment)
    (w : World) :
  truthy (mcpSessionId req) = false → method req = "POST" →
  isInitializeRequest (body req) = true →
  createServerRaises env || connectRaises env = true →
  headersSent (res w) = false →
  let out := handle req sp rem env w in
  out.1 = Normal ()
  ∧ manager out.2 = manager w
  ∧ trace out.2 = trace w
  ∧ res out.2 = {| headersSent := true;
                   calls := calls (res w)
                            ++ [Status 500; SendJson internalErrorBody] |}
  ∧ allocated (heap out.2) = S (allocated (heap w)).
Proof.
  intros Hsid Hmethod Hbody Hraise Hsent out.
  assert (Hfound : sessionLookup (manager w) (mcpSessionId req) = Undefined)
    by (unfold sessionLookup; by rewrite Hsid).
  assert (Hinit : isInitialization isInitializeRequest req = true)
    by (unfold isInitialization; by rewrite Hsid, Hmethod, Hbody).
  subst out. rewrite handle_initialization by done. rewrite Hraise.
  cbn [fst snd manager trace res heap withNewTransport allocated].
  unfold afterCatch. by rewrite Hsent.
Qed.

End ManagerProperties.

(** ** Teardown *)

Section Teardown.
Import Bridge.

Variable isInitializeRequest : Json → bool.

Local Abbreviation handle := (handleMcpRequest isInitializeRequest).

Implicit Types (table : gmap string TransportRef) (w : World).

Lemma applyHook_closed_twice t sid table :
  applyHook t (Closed sid) (applyHook t (Closed sid) table)
  = applyHook t (Closed sid) table.
Proof.
  cbn [applyHook].
  destruct (truthy sid && truthyLookup (readTable table (default "" sid)))
    eqn:Hcond; [|by rewrite Hcond].
  destruct (truthy sid && truthyLookup
              (readTable (delete (default "" sid) table) (default "" sid)));
    [|done].
  apply map_eq. intros key.
  destruct (decide (key = default "" sid)) as [->|Hne].
  - by rewrite !lookup_delete_eq.
  - by rewrite !lookup_delete_ne.
Qed.

(** X5.  The close hook is idempotent: invoked a second time it neither
    throws nor changes anything further, whatever [transport.sessionId]
    holds and whatever the table holds. *)
Theorem close_hook_is_idempotent (sid : option string) w :
  (oncloseHook sid;; oncloseHook sid) w = oncloseHook sid w.
Proof.
  unfold mbind, M_bind. rewrite !oncloseHook_spec.
  destruct w as [[table] hp r tr]. unfold withTransports.
  cbn [manager transports heap res trace].
  by rewrite applyHook_closed_twice.
Qed.

(** X6.  When a registered transport closes while it handles a request
    (its close hook reads the id it is registered under), its session is
    removed and every other session stays; a later request bearing the id
    reaches no transport and, the id not being a name of
    [Object.prototype], is answered with the 400 body. *)
Theorem closed_session_is_rejected_afterwards
    (req : Request) (sp : string) (rem : bool) (env : Environment)
    (w : World) (sid : string) (t : TransportRef) :
  mcpSessionId req = Some sid → sid ≠ "" →
  sid ∉ objectPrototypeMembers →
  transports (manager w) !! sid = Some t →
  hooks (handleRequestEffects env) = [Closed (Some sid)] →
  let out := handle req sp rem env w in
  transports (manager out.2) = delete sid (transports (manager w))
  ∧ ∀ (sp' : string) rem' env' r0,
      handle req sp' rem' env' (mkWorld (manager out.2) (heap out.2) r0 [])
      = (Normal (),
         mkWorld (manager out.2) (heap out.2)
           {| headersSent := true;
              calls := calls r0 ++ [Status 400; SendJson badRequestBody] |}
           []).
Proof.
  intros Hreq Hne Hproto Ht Hhooks out.
  assert (Htable : transports (manager out.2)
                   = delete sid (transports (manager w))).
  { subst out. rewrite (handle_routed _ _ _ _ _ _ t)
      by (rewrite Hreq; by apply sessionLookup_own).
    cbn [snd forwarded manager withTransports transports].
    rewrite Hhooks. cbn [applyHooks foldl applyHook default from_option id].
    unfold readTable. rewrite Ht. cbn [truthyLookup truthy].
    by rewrite (proj2 (String.eqb_neq _ _) Hne). }
  split; [exact Htable|]. intros sp' rem' env' r0.
  rewrite handle_rejects_unknown; [done| |].
  - cbn [manager]. intros sid' Hsid'. rewrite Hreq in Hsid'.
    injection Hsid' as <-. split; [|done].
    rewrite Htable. apply lookup_delete_eq.
  - unfold isInitialization. rewrite Hreq. cbn [truthy].
    by rewrite (proj2 (String.eqb_neq _ _) Hne).
Qed.

Lemma afterClose_subseteq eff key table k t :
  afterClose eff key table !! k = Some t → table !! k = Some t.
Proof.
  unfold afterClose, applyHook.
  assert (Hhook : ∀ sid,
            (if truthy sid && truthyLookup (readTable table (default "" sid))
             then delete (default "" sid) table else table) !! k = Some t →
            table !! k = Some t).
  { intros sid. destruct (truthy sid && _); [|done].
    by intros [_ ?]%lookup_delete_Some. }
  destruct (onclose eff) as [sid|], (closeRaises eff); try done.
  - apply Hhook.
  - intros [_ H]%lookup_delete_Some. by apply (Hhook sid).
  - by intros [_ ?]%lookup_delete_Some.
Qed.

Lemma sweep_subseteq closing order table tr :
  (∀ k t, (sweep closing order (table, tr)).1 !! k = Some t →
          table !! k = Some t)
  ∧ ∃ closes,
      (sweep closing order (table, tr)).2 = tr ++ closes
      ∧ Forall (λ c, ∃ k t, c = Close k t ∧ table !! k = Some t
                            ∧ k ∈ order) closes.
Proof.
  revert table tr. induction order as [|key rest IH]; intros table tr.
  - split; [done|]. exists []. by rewrite app_nil_r.
  - change (sweep closing (key :: rest) ?acc)
      with (sweep closing rest (sweepStep closing acc key)).
    unfold sweepStep. cbn [fst snd].
    destruct (table !! key) as [t0|] eqn:Ht0.
    + destruct (IH (afterClose (closing key) key table) (tr ++ [Close key t0]))
        as [IHt (closes & IHc & IHf)].
      split.
      * intros k t H. by eapply afterClose_subseteq, IHt.
      * exists (Close key t0 :: closes). split.
        { rewrite IHc. by rewrite <- app_assoc. }
        constructor.
        { exists key, t0. split; [done|]. split; [done | left]. }
        eapply Forall_impl; [exact IHf|].
        intros c (k & t & -> & Hk & Hin). exists k, t.
        split; [done|]. split; [by eapply afterClose_subseteq | by right].
    + destruct (IH table tr) as [IHt (closes & IHc & IHf)].
      split; [exact IHt|]. exists closes. split; [exact IHc|].
      eapply Forall_impl; [exact IHf|].
      intros c (k & t & -> & Hk & Hin). exists k, t.
      split; [done|]. split; [done | by right].
Qed.

(** X7.  Whatever the enumeration order and whatever the [close()] calls
    do, [closeAllTransports] completes without throwing, never registers a
    session (every session left was there before, under the same id),
    closes only transports that were registered, and touches neither the
    response nor the created objects. *)
Theorem closeAllTransports_only_removes
    (order : list string) (closing : string → CloseEffects) w :
  let out := closeAllTransports order closing w in
  out.1 = Normal ()
  ∧ (∀ k t, transports (manager out.2) !! k = Some t →
            transports (manager w) !! k = Some t)
  ∧ (∃ closes,
       trace out.2 = trace w ++ closes
       ∧ Forall (λ c, ∃ k t, c = Close k t
                             ∧ transports (manager w) !! k = Some t
                             ∧ k ∈ order) closes)
  ∧ res out.2 = res w ∧ heap out.2 = heap w.
Proof.
  intros out. subst out. rewrite closeAllTransports_sweep.
  cbn [fst snd manager withTransports transports trace res heap].
  destruct (sweep_subseteq closing order (transports (manager w)) (trace w))
    as [Hsub Hclose].
  by repeat split.
Qed.

End Teardown.

Lemma known_session_is_forwarded_witness :
  Bridge.trace
    (Bridge.handleMcpRequest Bridge.methodIsInitialize
       (Bridge.mkRequest (Some "existing-session") "POST" (JObject []) None)
       "/source" false Bridge.quiet
       (Bridge.mkWorld (Bridge.managerWith {[ "existing-session" := 0 ]})
          Bridge.emptyHeap Bridge.freshResponse [])).2
  = [Bridge.HandleRequest 0].
Proof.
  destruct (known_session_is_forwarded Bridge.methodIsInitialize
              (Bridge.mkRequest (Some "existing-session") "POST"
                 (JObject []) None)
              "/source" false Bridge.quiet
              (Bridge.mkWorld (Bridge.managerWith {[ "existing-session" := 0 ]})
                 Bridge.emptyHeap Bridge.freshResponse [])
              "existing-session" 0) as (Htrace & _).
  - reflexivity.
  - discriminate.
  - reflexivity.
  - exact Htrace.
Defined.

Lemma initialization_registers_and_routes_witness :
  Bridge.transports
    (Bridge.manager
       (Bridge.handleMcpRequest Bridge.methodIsInitialize
          (Bridge.mkRequest None "POST" Bridge.initializeBody None)
          "/source" false
          (Bridge.mkEnvironment false false
             (Bridge.mkEffects [Bridge.SessionInitialized 7] true false))
          (Bridge.mkWorld Bridge.newManager Bridge.emptyHeap
             Bridge.freshResponse [])).2)
  = {[ Bridge.randomUUID 7 := 0 ]}.
Proof.
  destruct (initialization_registers_and_routes Bridge.methodIsInitialize
              (Bridge.mkRequest None "POST" Bridge.initializeBody None)
              "/source" false
              (Bridge.mkEnvironment false false
                 (Bridge.mkEffects [Bridge.SessionInitialized 7] true false))
              (Bridge.mkWorld Bridge.newManager Bridge.emptyHeap
                 Bridge.freshResponse []) 7%N) as (Htable & _);
    [reflexivity | reflexivity | reflexivity | reflexivity | reflexivity
    | reflexivity | exact Htable].
Defined.

Lemma failed_initialization_registers_nothing_witness :
  Bridge.manager
    (Bridge.handleMcpRequest Bridge.methodIsInitialize
       (Bridge.mkRequest None "POST" Bridge.initializeBody None)
       "/source" false
       (Bridge.mkEnvironment true false (Bridge.mkEffects [] false false))
       (Bridge.mkWorld Bridge.newManager Bridge.emptyHeap
          Bridge.freshResponse [])).2
  = Bridge.newManager.
Proof.
  destruct (failed_initialization_registers_nothing Bridge.methodIsInitialize
              (Bridge.mkRequest None "POST" Bridge.initializeBody None)
              "/source" false
              (Bridge.mkEnvironment true false
                 (Bridge.mkEffects [] false false))
              (Bridge.mkWorld Bridge.newManager Bridge.emptyHeap
                 Bridge.freshResponse [])) as (_ & Hmanager & _);
    [reflexivity | reflexivity | reflexivity | reflexivity | reflexivity
    | exact Hmanager].
Defined.

Lemma closed_session_is_rejected_afterwards_witness :
  Bridge.transports
    (Bridge.manager
       (Bridge.handleMcpRequest Bridge.methodIsInitialize
          (Bridge.mkRequest (Some "existing-session") "DELETE" (JObject [])
             None)
          "/source" false
          (Bridge.mkEnvironment false false
             (Bridge.mkEffects [Bridge.Closed (Some "existing-session")]
                true false))
          (Bridge.mkWorld (Bridge.managerWith {[ "existing-session" := 0 ]})
             Bridge.emptyHeap Bridge.freshResponse [])).2)
  = delete "existing-session" {[ "existing-session" := 0 ]}.
Proof.
  destruct (closed_session_is_rejected_afterwards Bridge.methodIsInitialize
              (Bridge.mkRequest (Some "existing-session") "DELETE"
                 (JObject []) None)
              "/source" false
              (Bridge.mkEnvironment false false
                 (Bridge.mkEffects [Bridge.Closed (Some "existing-session")]
                    true false))
              (Bridge.mkWorld (Bridge.managerWith {[ "existing-session" := 0 ]})
                 Bridge.emptyHeap Bridge.freshResponse [])
              "existing-session" 0) as (Htable & _).
  - reflexivity.
  - discriminate.
  - vm_compute. intros Hin.
    repeat (apply elem_of_cons in Hin as [Hin|Hin]; [discriminate|]).
    by apply elem_of_nil in Hin.
  - reflexivity.
  - reflexivity.
  - exact Htable.
Defined.

(** ** Tool names *)

Section ToolNames.
Import Static.

Local Abbreviation chars := list_ascii_of_string.

Lemma string_length_chars (s : string) : String.length s = length (chars s).
Proof. induction s; simpl; [done | by f_equal]. Qed.

Lemma sanitizeToolName_chars (name : string) :
  chars (sanitizeToolName name)
  = take 64 (map (λ c, if isNameChar c then c else "_"%char) (chars name)).
Proof. unfold sanitizeToolName. apply list_ascii_of_string_of_list_ascii. Qed.

Lemma sanitizeToolName_length (name : string) :
  String.length (sanitizeToolName name) = min 64 (String.length name).
Proof.
  rewrite !string_length_chars, sanitizeToolName_chars.
  by rewrite length_take, length_map.
Qed.

Lemma sanitizeToolName_valid (name : string) :
  validToolName (sanitizeToolName name).
Proof.
  split; [rewrite sanitizeToolName_length; lia|].
  rewrite sanitizeToolName_chars. apply Forall_take, Forall_forall.
  intros c (c0 & -> & _)%list_elem_of_fmap.
  by destruct (isNameChar c0) eqn:Hc.
Qed.

Lemma sanitizeToolName_fixes (name : string) :
  validToolName name → sanitizeToolName name = name.
Proof.
  intros [Hlen Hall]. apply list_ascii_of_string_inj.
  rewrite sanitizeToolName_chars.
  rewrite string_length_chars in Hlen.
  assert (Hmap : ∀ l, Forall (λ c, isNameChar c = true) l →
            map (λ c, if isNameChar c then c else "_"%char) l = l).
  { induction 1 as [|c l Hc _ IH]; simpl; [done|]. by rewrite Hc, IH. }
  rewrite Hmap by done. by apply take_ge.
Qed.

(** X8.  Whatever the input, [sanitizeToolName] returns a name of at most
    64 characters, all of them in [[a-zA-Z0-9_-]]; its length is that of
    the input, cut at 64. *)
Theorem sanitizeToolName_yields_valid_name (name : string) :
  validToolName (sanitizeToolName name)
  ∧ String.length (sanitizeToolName name) = min 64 (String.length name).
Proof. split; [apply sanitizeToolName_valid | apply sanitizeToolName_length]. Qed.

(** X9.  The names [sanitizeToolName] leaves as they are are exactly the
    valid ones, and sanitizing twice is sanitizing once. *)
Theorem sanitizeToolName_fixes_exactly_valid_names (name : string) :
  (sanitizeToolName name = name ↔ validToolName name)
  ∧ sanitizeToolName (sanitizeToolName name) = sanitizeToolName name.
Proof.
  split; [split; [|apply sanitizeToolName_fixes]|].
  - intros E. rewrite <- E. apply sanitizeToolName_valid.
  - apply sanitizeToolName_fixes, sanitizeToolName_valid.
Qed.

End ToolNames.

(** ** Resources of a folder *)

Section FolderResources.
Import Bridge Static.

Variable pathJoin : list string → string.
Variable resolveUrl : string → string → Result string.
Variable fetchUrl : string → Result FetchResponse.
Variable fsReadFile : string → Result string.
Variable fsReaddir : string → Result (list string).
Variable parseJson : string → Result JsValue.

Local Abbreviation chars := list_ascii_of_string.
Local Abbreviation discover := (discoverResources pathJoin resolveUrl fsReaddir).
Local Abbreviation pathOf := (staticResourcePath pathJoin resolveUrl).
Local Abbreviation readResource :=
  (readStaticResource pathJoin resolveUrl fetchUrl fsReadFile parseJson).

Lemma removeFirstIn_unfold (pattern s : list ascii) :
  removeFirstIn pattern s
  = if bool_decide (pattern `prefix_of` s) then drop (length pattern) s
    else match s with
         | [] => []
         | c :: rest => c :: removeFirstIn pattern rest
         end.
Proof. by destruct s. Qed.

Lemma removeFirstIn_prefix (pattern rest : list ascii) :
  removeFirstIn pattern (pattern ++ rest) = rest.
Proof.
  rewrite removeFirstIn_unfold.
  rewrite bool_decide_eq_true_2 by apply prefix_app_r, reflexivity.
  apply drop_app_length.
Qed.

Lemma removeFirst_prefix (pattern rest : string) :
  removeFirst pattern (pattern +:+ rest) = rest.
Proof.
  unfold removeFirst.
  rewrite list_ascii_of_string_app, removeFirstIn_prefix.
  apply string_of_list_ascii_of_string.
Qed.

Lemma endsWith_app (s search : string) : endsWith (s +:+ search) search = true.
Proof.
  unfold endsWith. apply bool_decide_eq_true_2.
  rewrite list_ascii_of_string_app. by apply suffix_app_r.
Qed.

(** [".json"] cannot begin inside a text and run over its end into a
    following [".json"]. *)
Lemma dot_json_no_overlap (l : list ascii) :
  chars ".json" `prefix_of` l ++ chars ".json" →
  l = [] ∨ chars ".json" `prefix_of` l.
Proof.
  intros [k Hk]. simpl in Hk.
  destruct l as [|c1 l]; [by left|]. right.
  simpl in Hk. injection Hk as -> Hk.
  destruct l as [|c2 l]; [discriminate|]. simpl in Hk. injection Hk as -> Hk.
  destruct l as [|c3 l]; [discriminate|]. simpl in Hk. injection Hk as -> Hk.
  destruct l as [|c4 l]; [discriminate|]. simpl in Hk. injection Hk as -> Hk.
  destruct l as [|c5 l]; [discriminate|]. simpl in Hk. injection Hk as -> Hk.
  by exists l.
Qed.

Lemma removeFirstIn_dot_json (l : list ascii) :
  occursIn (chars ".json") l = false →
  removeFirstIn (chars ".json") (l ++ chars ".json") = l.
Proof.
  induction l as [|c l IH]; intros Hocc.
  - by vm_compute.
  - cbn [occursIn] in Hocc. apply orb_false_elim in Hocc as [Hhere Hlater].
    apply bool_decide_eq_false in Hhere.
    change ((c :: l) ++ chars ".json") with (c :: (l ++ chars ".json")).
    cbn [removeFirstIn]. rewrite bool_decide_eq_false_2.
    + by rewrite IH.
    + intros Hpre. change (c :: (l ++ chars ".json"))
        with ((c :: l) ++ chars ".json") in Hpre.
      by apply dot_json_no_overlap in Hpre as [?|?].
Qed.

(** X10.  What [discoverResources] lists can be read back, unless its path
    looks like a URL: for a local source, a listed file [n.json] whose
    name holds no other [".json"] gives the resource [n] with uri
    [file://n], and [readStaticResource] turns that uri into the path of
    the very file that was listed.  When that path does not start with
    ["http"], [readStaticResource] reads the file from the file system and
    parses it; when it does (as for the source [httpdocs]), [readFile]
    takes the path for a URL and the file is fetched, not read. *)
Theorem discovered_resource_reads_its_file
    (sourcePath : string) (files : list string) (n : string) :
  startsWith sourcePath "http" = false →
  fsReaddir (pathJoin [sourcePath; "resources"]) = Normal files →
  n +:+ ".json" ∈ files →
  occursIn (chars ".json") (chars n) = false →
  let listed := pathJoin [sourcePath; "resources"; n +:+ ".json"] in
  ∃ r, r ∈ discover sourcePath false
       ∧ resourceName r = n ∧ uri r = "file://" +:+ n
       ∧ mimeType r = "text/plain"
       ∧ pathOf sourcePath (uri r) = Normal listed
       ∧ (startsWith listed "http" = false →
          readResource sourcePath (uri r)
          = (content ← fsReadFile listed; parseJson content))
       ∧ (startsWith listed "http" = true →
          readResource sourcePath (uri r)
          = (response ← fetchUrl listed;
             content ← (if ok response then text response
                        else Thrown (Failure ("HTTP " +:+ EventStore.decimal
                                                (status response))));
             parseJson content)).
Proof.
  intros Hlocal Hlist Hin Hocc listed.
  assert (Hname : removeFirst ".json" (n +:+ ".json") = n).
  { unfold removeFirst. rewrite list_ascii_of_string_app.
    rewrite removeFirstIn_dot_json by done.
    apply string_of_list_ascii_of_string. }
  assert (Hpath : pathOf sourcePath ("file://" +:+ n) = Normal listed).
  { unfold staticResourcePath. rewrite removeFirst_prefix.
    unfold joinPath. by rewrite Hlocal. }
  exists {| uri := "file://" +:+ n; resourceName := n;
            resourceDescription := "StaticMCP resource: " +:+ n;
            mimeType := "text/plain" |}.
  split; [|split; [done|split; [done|split; [done|]]]].
  - unfold discoverResources, joinPath, readDir. rewrite Hlocal.
    cbn [orb mbind Result_bind]. rewrite Hlist. cbn [orOnError].
    apply list_elem_of_omap. exists (n +:+ ".json"). split; [done|].
    unfold resourceOfFile. by rewrite endsWith_app, Hname.
  - cbn [uri]. split; [exact Hpath|].
    unfold readStaticResource. rewrite Hpath. cbn [mbind Result_bind].
    unfold readFile. split; intros ->; [done|].
    by destruct (fetchUrl listed) as [response|e].
Qed.

End FolderResources.

(** ** Manifests and tool folders *)

Section Discovery.
Import Bridge Static.

Variable numberText : Z → string.
Variable pathJoin : list string → string.
Variable resolveUrl : string → string → Result string.
Variable fetchUrl : string → Result FetchResponse.
Variable fsReadFile : string → Result string.
Variable fsReaddir : string → Result (list string).
Variable parseJson : string → Result JsValue.
Variable refusesAssignment : Validator → string → bool.

Local Abbreviation load :=
  (loadManifest pathJoin resolveUrl fetchUrl fsReadFile parseJson).
Local Abbreviation tools :=
  (discoverTools pathJoin resolveUrl fetchUrl fsReadFile fsReaddir parseJson).
Local Abbreviation schemaOf :=
  (schemaOfTool pathJoin resolveUrl fetchUrl fsReadFile parseJson).
Local Abbreviation resourcesOf := (discoverResourcesFromManifest numberText).

Lemma orElse_truthy_r (a b : JsValue) :
  truthyValue b = true → truthyValue (orElse a b) = true.
Proof. intros Hb. unfold orElse. by destruct (truthyValue a) eqn:Ha. Qed.

Lemma orElse_truthy_either (a b : JsValue) :
  truthyValue (orElse a b) = true → truthyValue (orElse b a) = true.
Proof.
  unfold orElse. destruct (truthyValue a) eqn:Ha, (truthyValue b) eqn:Hb;
    congruence.
Qed.

Lemma text_with_prefix_truthy (c : ascii) (head tail : string) :
  truthyValue (VString (String c head +:+ tail)) = true.
Proof. reflexivity. Qed.

Lemma manifestOf_truthy (rawManifest : JsValue) (m : McpManifest) :
  manifestOf rawManifest = Normal m →
  truthyValue (manifestName m) = true
  ∧ truthyValue (manifestVersion m) = true
  ∧ truthyValue (manifestDescription m) = true.
Proof.
  destruct rawManifest; cbn [manifestOf getProp mbind Result_bind];
    intros H; try discriminate H; injection H as <-;
    cbn [manifestName manifestVersion manifestDescription];
    repeat split; by apply orElse_truthy_r.
Qed.

(** X11.  Whatever the file system, the network and the parser do, and
    whatever [mcp.json] holds, [loadManifest] returns a manifest (it does
    not throw) whose name, version and description are truthy: a missing,
    empty or otherwise falsy entry is replaced by the default. *)
Theorem loadManifest_always_names_the_server (sourcePath : string) :
  truthyValue (manifestName (load sourcePath)) = true
  ∧ truthyValue (manifestVersion (load sourcePath)) = true
  ∧ truthyValue (manifestDescription (load sourcePath)) = true.
Proof.
  unfold loadManifest.
  destruct (joinPath pathJoin resolveUrl sourcePath ["mcp.json"])
    as [manifestPath|e]; cbn [mbind Result_bind orOnError]; [|done].
  destruct (readFile fetchUrl fsReadFile manifestPath) as [content|e];
    cbn [mbind Result_bind orOnError]; [|done].
  destruct (parseJson content) as [rawManifest|e];
    cbn [mbind Result_bind orOnError]; [|done].
  destruct (manifestOf rawManifest) as [m|e] eqn:Hm; cbn [orOnError]; [|done].
  by apply (manifestOf_truthy rawManifest).
Qed.

(** X12.  When [mcp.json] cannot be read or parsed, or parses to [null],
    discovery from the manifest does not fail: it finds no tool and no
    resource. *)
Theorem unreadable_manifest_exposes_nothing (sourcePath : string) :
  let parsed :=
    manifestPath ← joinPath pathJoin resolveUrl sourcePath ["mcp.json"];
    manifestContent ← readFile fetchUrl fsReadFile manifestPath;
    parseJson manifestContent in
  parsed = Normal VNull ∨ (∃ e, parsed = Thrown e) →
  load sourcePath = defaultManifest
  ∧ discoverToolsFromManifest refusesAssignment (load sourcePath) = Normal []
  ∧ resourcesOf (load sourcePath) = Normal [].
Proof.
  intros parsed Hfail. subst parsed.
  assert (Hload : load sourcePath = defaultManifest).
  { unfold loadManifest.
    destruct (joinPath pathJoin resolveUrl sourcePath ["mcp.json"])
      as [manifestPath|e]; cbn [mbind Result_bind orOnError] in *; [|done].
    destruct (readFile fetchUrl fsReadFile manifestPath) as [content|e];
      cbn [mbind Result_bind orOnError] in *; [|done].
    destruct (parseJson content) as [rawManifest|e];
      cbn [mbind Result_bind orOnError] in *; [|done].
    destruct Hfail as [Hnull|[e He]]; [|done].
    by injection Hnull as ->. }
  by rewrite Hload.
Qed.

Lemma schemaOf_truthy (toolsDir name : string) :
  truthyValue (schemaOf toolsDir name) = true.
Proof.
  unfold schemaOfTool.
  destruct (joinPath pathJoin resolveUrl toolsDir [name; "_schema.json"])
    as [schemaPath|e]; cbn [mbind Result_bind orOnError]; [|done].
  destruct (readFile fetchUrl fsReadFile schemaPath) as [content|e];
    cbn [mbind Result_bind orOnError]; [|done].
  destruct (parseJson content) as [schema|e];
    cbn [mbind Result_bind orOnError]; [|done].
  destruct (getProp schema "inputSchema") as [declared|e];
    cbn [mbind Result_bind orOnError]; [|done].
  by apply orElse_truthy_r.
Qed.

(** The schema [discoverTools] gives a tool folder: what [_schema.json]
    declares as [inputSchema] when the file can be read and parsed and
    declares a truthy one, the default schema otherwise. *)
Lemma schemaOf_spec (toolsDir name : string) :
  let parsed :=
    schemaPath ← joinPath pathJoin resolveUrl toolsDir [name; "_schema.json"];
    schemaContent ← readFile fetchUrl fsReadFile schemaPath;
    parseJson schemaContent in
  (∀ declared,
     parsed = Normal declared →
     truthyValue (getPropOptional declared "inputSchema") = true →
     schemaOf toolsDir name = getPropOptional declared "inputSchema")
  ∧ ((∃ e, parsed = Thrown e)
     ∨ (∃ declared,
          parsed = Normal declared
          ∧ truthyValue (getPropOptional declared "inputSchema") = false) →
     schemaOf toolsDir name
     = VObject [("type", VString "object"); ("properties", VObject [])]).
Proof.
  intros parsed. subst parsed. unfold schemaOfTool.
  destruct (joinPath pathJoin resolveUrl toolsDir [name; "_schema.json"])
    as [schemaPath|e]; cbn [mbind Result_bind orOnError].
  2:{ split; [discriminate | done]. }
  destruct (readFile fetchUrl fsReadFile schemaPath) as [content|e];
    cbn [mbind Result_bind orOnError].
  2:{ split; [discriminate | done]. }
  destruct (parseJson content) as [schema|e];
    cbn [mbind Result_bind orOnError].
  2:{ split; [discriminate | done]. }
  split.
  - intros declared [= <-] Htruthy.
    destruct schema; cbn [getPropOptional truthyValue] in Htruthy;
      try discriminate.
    cbn [getProp getPropOptional mbind Result_bind orOnError].
    unfold orElse. by rewrite Htruthy.
  - intros [[e [=]]|(declared & [= <-] & Hfalsy)].
    destruct schema; cbn [getProp getPropOptional mbind Result_bind orOnError];
      try done.
    cbn [getPropOptional] in Hfalsy. unfold orElse. by rewrite Hfalsy.
Qed.

(** X13.  Whatever the file system holds, [discoverTools] does not throw:
    it finds nothing for a remote source or a folder that cannot be listed,
    and otherwise one tool per entry of the [tools] folder, in listing
    order, named by the sanitized entry and described by the entry.  The
    schema of a tool is the [inputSchema] its [_schema.json] declares, when
    that file can be read and parsed and declares a truthy one, and
    [{"type":"object","properties":{}}] otherwise.  Every tool returned has
    a valid name and a truthy JSON schema. *)
Theorem discoverTools_names_and_schemas
    (sourcePath : string) (isRemoteUrl : bool) :
  Forall (λ t, validToolName (toolName t)
               ∧ ∃ schema, inputSchema t = JsonSchema schema
                           ∧ truthyValue schema = true)
         (tools sourcePath isRemoteUrl)
  ∧ (isRemoteUrl = true → tools sourcePath isRemoteUrl = [])
  ∧ (∀ toolsDir,
       isRemoteUrl = false →
       joinPath pathJoin resolveUrl sourcePath ["tools"] = Normal toolsDir →
       (∀ dirs,
          fsReaddir toolsDir = Normal dirs →
          Forall2
            (λ dir t,
               toolName t = sanitizeToolName dir
               ∧ toolDescription t = VString ("StaticMCP tool: " +:+ dir)
               ∧ ∃ schema,
                   inputSchema t = JsonSchema schema
                   ∧ let parsed :=
                       schemaPath ← joinPath pathJoin resolveUrl toolsDir
                                      [dir; "_schema.json"];
                       schemaContent ← readFile fetchUrl fsReadFile schemaPath;
                       parseJson schemaContent in
                     (∀ declared,
                        parsed = Normal declared →
                        truthyValue (getPropOptional declared "inputSchema")
                        = true →
                        schema = getPropOptional declared "inputSchema")
                     ∧ ((∃ e, parsed = Thrown e)
                        ∨ (∃ declared,
                             parsed = Normal declared
                             ∧ truthyValue
                                 (getPropOptional declared "inputSchema")
                               = false) →
                        schema = VObject [("type", VString "object");
                                          ("properties", VObject [])]))
            dirs (tools sourcePath isRemoteUrl))
       ∧ ((∃ e, fsReaddir toolsDir = Thrown e) →
          tools sourcePath isRemoteUrl = [])).
Proof.
  split; [|split].
  - unfold discoverTools. destruct isRemoteUrl; [constructor|].
    destruct (joinPath pathJoin resolveUrl sourcePath ["tools"])
      as [toolsDir|e]; cbn [mbind Result_bind orOnError]; [|constructor].
    unfold readDir.
    destruct (fsReaddir toolsDir) as [dirs|e];
      cbn [mbind Result_bind orOnError]; [|constructor].
    apply Forall_forall. intros t (dir & -> & _)%list_elem_of_fmap.
    cbn [toolName inputSchema]. split; [apply sanitizeToolName_valid|].
    eexists. split; [done | apply schemaOf_truthy].
  - by intros ->.
  - intros toolsDir -> Hdir. unfold discoverTools, readDir. rewrite Hdir.
    cbn [mbind Result_bind]. split.
    + intros dirs ->. cbn [mbind Result_bind orOnError].
      apply Forall2_fmap_r, Forall_Forall2_diag, Forall_forall.
      intros dir _. cbn [toolName toolDescription inputSchema].
      split; [done|]. split; [done|].
      exists (schemaOf toolsDir dir). split; [done|]. apply schemaOf_spec.
    + by intros [e ->].
Qed.

End Discovery.

(** ** The schema converter *)

Section Converter.
Import Bridge Static.

Variable refusesAssignment : Validator → string → bool.

Local Abbreviation convert := (jsonSchemaToMcpInputSchema refusesAssignment).
Local Abbreviation convertAll := (convertProperties refusesAssignment).
Local Abbreviation assign := (assignValidator refusesAssignment).










Lemma convertProperties_null required entries name (obj : ValidatorObject) :
  (name, VNull) ∈ entries →
  ∃ e, convertAll required entries obj = Thrown e.
Proof.
  revert obj. induction entries as [|[name' propSchema] rest IH];
    intros obj; [by intros ?%elem_of_nil|].
  intros [[= <- <-]|Hin]%elem_of_cons; cbn [convertProperties].
  - by eexists.
  - destruct (convertProperty required name' propSchema) as [converted|e];
      cbn [mbind Result_bind]; [|by eexists].
    destruct (match converted with
              | Some validator => assign name' validator obj
              | None => Normal obj
              end) as [next|e]; cbn [mbind Result_bind]; [|by eexists].
    apply (IH next Hin).
Qed.


(** X15.  A property whose schema is [null] makes
    [jsonSchemaToMcpInputSchema] throw, as does a schema that is itself
    [undefined] or [null]: [typeof null] is ['object'], and reading [type]
    from it fails. *)
Theorem converter_throws_on_null
    (jsonSchema : JsValue) (name : string) :
  jsonSchema = VUndefined ∨ jsonSchema = VNull
  ∨ (name, VNull)
    ∈ objectEntries (orElse (getPropOptional jsonSchema "properties")
                            (VObject [])) →
  ∃ e, convert jsonSchema = Thrown e.
Proof.
  intros [->|[->|Hin]]; [by eexists | by eexists |].
  unfold jsonSchemaToMcpInputSchema.
  set (required := orElse (getPropOptional jsonSchema "required") (VArray [])).
  set (properties := orElse (getPropOptional jsonSchema "properties")
                            (VObject [])) in *.
  assert (Hrun : ∃ e, (if (length (objectEntries properties) =? 0)%nat
                       then Normal newValidatorObject
                       else convertAll required (objectEntries properties)
                              newValidatorObject)
                      = Thrown e).
  { destruct (objectEntries properties) as [|entry rest] eqn:He;
      [by apply elem_of_nil in Hin|].
    cbn [length Nat.eqb]. by eapply convertProperties_null. }
  destruct jsonSchema; cbn [getProp mbind Result_bind]; try (by eexists);
    exact Hrun.
Qed.

End Converter.

(** ** Tools and resources of a manifest *)

Section ManifestDiscovery.
Import Bridge Static.

Variable numberText : Z → string.
Variable refusesAssignment : Validator → string → bool.

Local Abbreviation resourcesOf := (discoverResourcesFromManifest numberText).
Local Abbreviation resourceOf := (resourceFromManifest numberText).
Local Abbreviation render := (stringOf numberText).
Local Abbreviation toolOf := (toolFromManifest refusesAssignment).

Lemma collect_normal {A B : Type} (turn : A → Result (option B))
    (entries : list A) (found : list B) :
  collect turn entries = Normal found →
  Forall (λ b, ∃ entry, entry ∈ entries ∧ turn entry = Normal (Some b)) found.
Proof.
  revert found. induction entries as [|entry rest IH]; intros found;
    cbn [collect].
  - intros [= <-]. constructor.
  - destruct (turn entry) as [o|e] eqn:Hturn; cbn [mbind Result_bind];
      [|discriminate].
    destruct (collect turn rest) as [others|e]; cbn [mbind Result_bind];
      [|discriminate].
    intros [= <-].
    assert (Hrest : Forall (λ b, ∃ x, x ∈ entry :: rest
                                      ∧ turn x = Normal (Some b)) others).
    { eapply Forall_impl; [by apply IH|].
      intros b (x & Hin & ?). exists x. split; [by right | done]. }
    destruct o as [b|]; [|done]. constructor; [|done].
    exists entry. split; [left | done].
Qed.

Lemma collect_thrown {A B : Type} (turn : A → Result (option B))
    (entries : list A) (entry : A) (e : Exception) :
  entry ∈ entries → turn entry = Thrown e →
  ∃ e', collect turn entries = Thrown e'.
Proof.
  intros Hin Hturn. induction entries as [|first rest IH];
    [by apply elem_of_nil in Hin|].
  cbn [collect]. apply elem_of_cons in Hin as [<-|Hin].
  - rewrite Hturn. by eexists.
  - destruct (turn first) as [o|e1]; cbn [mbind Result_bind]; [|by eexists].
    destruct (IH Hin) as [e' ->]. by eexists.
Qed.

Lemma collect_thrown_inv {A B : Type} (turn : A → Result (option B))
    (entries : list A) (e : Exception) :
  collect turn entries = Thrown e →
  ∃ entry e', entry ∈ entries ∧ turn entry = Thrown e'.
Proof.
  induction entries as [|first rest IH]; cbn [collect]; [discriminate|].
  destruct (turn first) as [o|e1] eqn:Hturn; cbn [mbind Result_bind].
  - destruct (collect turn rest) as [others|e2]; cbn [mbind Result_bind];
      [discriminate|].
    intros [= ->]. destruct (IH eq_refl) as (entry & e' & Hin & Hthrown).
    exists entry, e'. split; [by right | done].
  - intros _. exists first, e1. split; [left | done].
Qed.

Lemma toolFromManifest_some (toolInfo : JsValue) (tool : StaticTool) :
  toolOf toolInfo = Normal (Some tool) →
  ∃ text validators,
    getPropOptional toolInfo "name" = VString text ∧ text ≠ ""
    ∧ toolName tool = sanitizeToolName text
    ∧ toolDescription tool
      = orElse (getPropOptional toolInfo "description")
               (VString ("StaticMCP tool: " +:+ text))
    ∧ jsonSchemaToMcpInputSchema refusesAssignment
        (getPropOptional toolInfo "inputSchema")
      = Normal validators
    ∧ inputSchema tool = Validators validators.
Proof.
  unfold toolFromManifest.
  destruct toolInfo; cbn [isTypeofObject negb getProp getPropOptional
    mbind Result_bind truthyValue]; try discriminate.
  destruct (lookupProp props "name") as [| |b|n|text|items|ps] eqn:Hname;
    cbn [truthyValue negb]; try discriminate.
  - destruct b; discriminate.
  - destruct (n =? 0)%Z; discriminate.
  - destruct (String.eqb_spec text "") as [->|Hne]; cbn [negb];
      [discriminate|].
    destruct (jsonSchemaToMcpInputSchema refusesAssignment
                (lookupProp props "inputSchema"))
      as [validators|e] eqn:Hschema; cbn [mbind Result_bind]; [|discriminate].
    intros [= <-]. by exists text, validators.
Qed.

Lemma toolFromManifest_thrown (toolInfo : JsValue) :
  toolInfo = VNull
  ∨ truthyValue (getPropOptional toolInfo "name") = true
    ∧ (getPropOptional toolInfo "inputSchema" = VUndefined
       ∨ getPropOptional toolInfo "inputSchema" = VNull) →
  ∃ e, toolOf toolInfo = Thrown e.
Proof.
  intros [->|[Hname Hschema]]; [by eexists|].
  unfold toolFromManifest.
  destruct toolInfo; cbn [getPropOptional truthyValue] in Hname;
    try discriminate.
  cbn [isTypeofObject negb getProp getPropOptional mbind Result_bind] in *.
  rewrite Hname. cbn [negb].
  destruct (lookupProp props "name"); try (by eexists).
  by destruct Hschema as [->| ->]; eexists.
Qed.

(** X16.  Every tool [discoverToolsFromManifest] returns stems from an
    entry of the manifest's [tools] array whose [name] is a non-empty
    string: the tool carries that name sanitized, hence a valid one, and a
    truthy description. *)
Theorem manifest_tools_are_named_entries
    (manifest : McpManifest) (tools : list StaticTool) :
  discoverToolsFromManifest refusesAssignment manifest = Normal tools →
  Forall (λ tool,
            validToolName (toolName tool)
            ∧ truthyValue (toolDescription tool) = true
            ∧ ∃ entries toolInfo text,
                manifestTools manifest = VArray entries
                ∧ toolInfo ∈ entries
                ∧ getPropOptional toolInfo "name" = VString text
                ∧ text ≠ ""
                ∧ toolName tool = sanitizeToolName text)
         tools.
Proof.
  unfold discoverToolsFromManifest.
  destruct (manifestTools manifest) as [| | | | |entries|];
    try (intros [= <-]; constructor).
  intros Hrun. eapply Forall_impl; [by apply (collect_normal _ _ _ Hrun)|].
  intros tool (toolInfo & Hin & Hturn).
  destruct (toolFromManifest_some _ _ Hturn)
    as (text & validators & Hname & Hne & Hn & Hd & _ & _).
  split; [rewrite Hn; apply sanitizeToolName_valid|].
  split; [rewrite Hd; apply orElse_truthy_r, text_with_prefix_truthy|].
  by exists entries, toolInfo, text.
Qed.

(** X17.  [discoverToolsFromManifest] throws when the [tools] array holds
    [null], or an entry with a truthy [name] whose [inputSchema] is missing
    or [null]. *)
Theorem manifest_tool_without_schema_throws
    (manifest : McpManifest) (entries : list JsValue) (toolInfo : JsValue) :
  manifestTools manifest = VArray entries →
  toolInfo ∈ entries →
  toolInfo = VNull
  ∨ truthyValue (getPropOptional toolInfo "name") = true
    ∧ (getPropOptional toolInfo "inputSchema" = VUndefined
       ∨ getPropOptional toolInfo "inputSchema" = VNull) →
  ∃ e, discoverToolsFromManifest refusesAssignment manifest = Thrown e.
Proof.
  intros Harray Hin Hbad. unfold discoverToolsFromManifest. rewrite Harray.
  destruct (toolFromManifest_thrown _ Hbad) as [e He].
  by eapply collect_thrown.
Qed.

Lemma orElseTry_truthy (a : JsValue) (b : Result JsValue) (v : JsValue) :
  orElseTry a b = Normal v →
  (∀ w, b = Normal w → truthyValue w = true) →
  truthyValue v = true.
Proof.
  unfold orElseTry. destruct (truthyValue a) eqn:Ha.
  - by intros [= <-].
  - intros -> Hb. by apply Hb.
Qed.

Lemma resourceFromManifest_thrown (resourceInfo : JsValue) :
  (∃ e, resourceOf resourceInfo = Thrown e)
  ↔ resourceInfo = VNull
    ∨ (let declaredU := getPropOptional resourceInfo "uri" in
       let declaredN := getPropOptional resourceInfo "name" in
       (truthyValue declaredU = false ∧ truthyValue declaredN = true
        ∧ ∃ e, render declaredN = Thrown e)
       ∨ (truthyValue (orElse declaredU declaredN) = true
          ∧ truthyValue (getPropOptional resourceInfo "description") = false
          ∧ ∃ e, render (orElse declaredN declaredU) = Thrown e)).
Proof.
  unfold resourceFromManifest.
  destruct resourceInfo;
    cbn [isTypeofObject negb getProp getPropOptional mbind Result_bind
         truthyValue orElse];
    try (split; [by intros [e ?] | intros [?|[(? & ? & _)|(? & _)]]; done]).
  { split; [by left | by eexists]. }
  generalize (lookupProp props "uri") (lookupProp props "name")
             (lookupProp props "description") (lookupProp props "mimeType").
  intros U N D T. unfold orElse, orElseTry.
  destruct (truthyValue U) eqn:HU, (truthyValue N) eqn:HN,
           (truthyValue D) eqn:HD;
    rewrite ?HU, ?HN; cbn [negb mbind Result_bind];
    try destruct (render N) as [textN|eN] eqn:HrN;
    try destruct (render U) as [textU|eU] eqn:HrU;
    cbn [mbind Result_bind];
    (split;
     [ first [ intros [e He]; discriminate He
             | intros _; right; left; split; [done|]; split; [done|];
               by eexists
             | intros _; right; right; split; [done|]; split; [done|];
               by eexists ]
     | first [ intros [?|[(? & ? & [e ?])|(? & ? & [e ?])]]; done
             | intros _; by eexists ] ]).
Qed.

Lemma resourceFromManifest_some (resourceInfo : JsValue)
    (r : ManifestResource) :
  resourceOf resourceInfo = Normal (Some r) →
  truthyValue (declaredUri r) = true
  ∧ truthyValue (declaredName r) = true
  ∧ truthyValue (declaredDescription r) = true
  ∧ truthyValue (declaredMimeType r) = true.
Proof.
  unfold resourceFromManifest.
  destruct resourceInfo; cbn [isTypeofObject negb getProp mbind Result_bind];
    try discriminate.
  destruct (truthyValue (orElse (lookupProp props "uri")
                                (lookupProp props "name"))) eqn:Hnamed;
    cbn [negb]; [|discriminate].
  destruct (orElseTry (lookupProp props "uri") _) as [uriOrDefault|e]
    eqn:Huri; cbn [mbind Result_bind]; [|discriminate].
  destruct (orElseTry (lookupProp props "description") _)
    as [descriptionOrDefault|e] eqn:Hdescription;
    cbn [mbind Result_bind]; [|discriminate].
  intros [= <-].
  cbn [declaredUri declaredName declaredDescription declaredMimeType].
  split.
  { apply (orElseTry_truthy _ _ _ Huri). intros w.
    destruct (render (lookupProp props "name")); cbn [mbind Result_bind];
      [|discriminate].
    intros [= <-]. apply text_with_prefix_truthy. }
  split; [by apply orElse_truthy_either|].
  split; [|by apply orElse_truthy_r].
  apply (orElseTry_truthy _ _ _ Hdescription). intros w.
  destruct (render (orElse (lookupProp props "name")
                           (lookupProp props "uri")));
    cbn [mbind Result_bind]; [|discriminate].
  intros [= <-]. apply text_with_prefix_truthy.
Qed.

(** X18.  For a manifest whose [resources] is an array,
    [discoverResourcesFromManifest] throws exactly when the array holds
    [null], or an entry of which a name has to be put into a text and
    cannot be converted to one: the [name], when the entry has one and no
    [uri], or the [name] or else [uri], when the entry has no
    [description]. *)
Theorem manifest_resources_throw_exactly_when_unreadable
    (manifest : McpManifest) (entries : list JsValue) :
  manifestResources manifest = VArray entries →
  (∃ e, resourcesOf manifest = Thrown e)
  ↔ ∃ entry,
      entry ∈ entries
      ∧ (entry = VNull
         ∨ (let declaredU := getPropOptional entry "uri" in
            let declaredN := getPropOptional entry "name" in
            (truthyValue declaredU = false ∧ truthyValue declaredN = true
             ∧ ∃ e, render declaredN = Thrown e)
            ∨ (truthyValue (orElse declaredU declaredN) = true
               ∧ truthyValue (getPropOptional entry "description") = false
               ∧ ∃ e, render (orElse declaredN declaredU) = Thrown e))).
Proof.
  intros Harray. unfold discoverResourcesFromManifest. rewrite Harray. split.
  - intros [e He].
    destruct (collect_thrown_inv _ _ _ He) as (entry & e' & Hin & Hturn).
    exists entry. split; [done|].
    apply resourceFromManifest_thrown. by eexists.
  - intros (entry & Hin & Hbad).
    apply resourceFromManifest_thrown in Hbad as [e He].
    by eapply collect_thrown.
Qed.

(** X19.  Every resource [discoverResourcesFromManifest] returns has a
    truthy [uri], [name], [description] and [mimeType]: what the manifest
    leaves out or leaves falsy is filled in. *)
Theorem manifest_resources_have_every_field
    (manifest : McpManifest) (resources : list ManifestResource) :
  resourcesOf manifest = Normal resources →
  Forall (λ r, truthyValue (declaredUri r) = true
               ∧ truthyValue (declaredName r) = true
               ∧ truthyValue (declaredDescription r) = true
               ∧ truthyValue (declaredMimeType r) = true)
         resources.
Proof.
  unfold discoverResourcesFromManifest.
  destruct (manifestResources manifest) as [| | | | |entries|];
    try (intros [= <-]; constructor).
  intros Hrun. eapply Forall_impl; [by apply (collect_normal _ _ _ Hrun)|].
  intros r (resourceInfo & _ & Hturn).
  by apply (resourceFromManifest_some resourceInfo).
Qed.

End ManifestDiscovery.

(** ** Paths of tools *)

Section ToolPaths.
Import Bridge Static.

Variable numberText : Z → string.
Variable pathJoin : list string → string.
Variable resolveUrl : string → string → Result string.
Variable fetchUrl : string → Result FetchResponse.
Variable fsReadFile : string → Result string.
Variable fsReaddir : string → Result (list string).
Variable parseJson : string → Result JsValue.
Variable localeCompare : string → string → Z.

Local Abbreviation chars := list_ascii_of_string.
Local Abbreviation join := (joinPath pathJoin resolveUrl).
Local Abbreviation sorted := (sortEntries localeCompare).
Local Abbreviation pathOf :=
  (staticToolPath numberText pathJoin resolveUrl localeCompare).
Local Abbreviation execute :=
  (executeStaticTool numberText pathJoin resolveUrl fetchUrl fsReadFile
                     parseJson localeCompare).
Local Abbreviation tools :=
  (discoverTools pathJoin resolveUrl fetchUrl fsReadFile fsReaddir parseJson).
Local Abbreviation before :=
  (λ x y : string * JsValue, (localeCompare x.1 y.1 ≤ 0)%Z).

Lemma startsWith_app (s rest search : string) :
  startsWith s search = true → startsWith (s +:+ rest) search = true.
Proof.
  unfold startsWith. intros H%bool_decide_eq_true.
  apply bool_decide_eq_true. rewrite list_ascii_of_string_app.
  by apply prefix_app_r.
Qed.

(** X20.  For a remote base, [joinPath] resolves against the base with one
    [/] at its end: a base that lacks it gives what the base with [/]
    appended gives. *)
Theorem joinPath_completes_remote_base
    (basePath : string) (segments : list string) :
  startsWith basePath "http" = true →
  endsWith basePath "/" = false →
  join basePath segments = join (basePath +:+ "/") segments
  ∧ join basePath segments
    = resolveUrl (String.concat "/" segments) (basePath +:+ "/").
Proof.
  intros Hremote Hopen. unfold joinPath.
  by rewrite (startsWith_app _ _ _ Hremote), Hremote, Hopen, endsWith_app.
Qed.

Lemma insertEntry_perm (entry : string * JsValue)
    (l : list (string * JsValue)) :
  insertEntry localeCompare entry l ≡ₚ entry :: l.
Proof.
  induction l as [|next rest IH]; cbn [insertEntry]; [done|].
  destruct (localeCompare entry.1 next.1 <=? 0)%Z; [done|].
  fold (insertEntry localeCompare entry rest). rewrite IH. apply Permutation_swap.
Qed.

Lemma sortEntries_perm (l : list (string * JsValue)) : sorted l ≡ₚ l.
Proof.
  unfold sortEntries. induction l as [|entry rest IH]; cbn [foldr]; [done|].
  by rewrite insertEntry_perm, IH.
Qed.

Section Ordered.

Hypothesis compare_total :
  ∀ a b, (localeCompare a b ≤ 0)%Z ∨ (localeCompare b a ≤ 0)%Z.
Hypothesis compare_trans :
  ∀ a b c, (localeCompare a b ≤ 0)%Z → (localeCompare b c ≤ 0)%Z →
           (localeCompare a c ≤ 0)%Z.

Lemma insertEntry_sorted (entry : string * JsValue)
    (l : list (string * JsValue)) :
  StronglySorted before l →
  StronglySorted before (insertEntry localeCompare entry l).
Proof.
  induction 1 as [|next rest Hsorted IH Hnext]; cbn [insertEntry].
  - by repeat constructor.
  - fold (insertEntry localeCompare entry rest).
    destruct (Z.leb_spec (localeCompare entry.1 next.1) 0) as [Hle|Hgt].
    + constructor; [by constructor|].
      constructor; [done|].
      eapply Forall_impl; [exact Hnext|].
      intros y Hy. by eapply compare_trans.
    + constructor; [done|].
      rewrite insertEntry_perm. constructor; [|done].
      destruct (compare_total next.1 entry.1); [done | lia].
Qed.

Lemma sortEntries_sorted (l : list (string * JsValue)) :
  StronglySorted before (sorted l).
Proof.
  unfold sortEntries. induction l as [|entry rest IH]; cbn [foldr].
  - constructor.
  - by apply insertEntry_sorted.
Qed.

Lemma entries_told_apart (l : list (string * JsValue))
    (x y : string * JsValue) :
  NoDup l.*1 → x ∈ l → y ∈ l → x.1 = y.1 → x = y.
Proof.
  induction l as [|z l IH]; [by intros _ ?%elem_of_nil|].
  cbn [fmap list_fmap]. intros [Hfresh Hrest]%NoDup_cons Hx Hy Hkey.
  apply elem_of_cons in Hx as [->|Hx]; apply elem_of_cons in Hy as [->|Hy].
  - done.
  - exfalso. apply Hfresh. rewrite Hkey. by apply list_elem_of_fmap_2.
  - exfalso. apply Hfresh. rewrite <- Hkey. by apply list_elem_of_fmap_2.
  - by apply IH.
Qed.

(** X21.  [executeStaticTool] does not depend on the order in which the
    arguments are given: two argument objects with the same properties,
    whose names the comparator tells apart, lead to the same file and the
    same result. *)
Theorem executeStaticTool_ignores_argument_order
    (sourcePath name : string) (props1 props2 : list (string * JsValue)) :
  NoDup props1.*1 →
  (∀ a b, a ∈ props1.*1 → b ∈ props1.*1 →
          (localeCompare a b ≤ 0)%Z → (localeCompare b a ≤ 0)%Z → a = b) →
  props1 ≡ₚ props2 →
  pathOf sourcePath name (VObject props1)
  = pathOf sourcePath name (VObject props2)
  ∧ execute sourcePath name (VObject props1)
    = execute sourcePath name (VObject props2).
Proof.
  intros Hkeys Hapart Hperm.
  assert (Hsame : sorted props1 = sorted props2).
  { apply (StronglySorted_unique_strong before);
      [|apply sortEntries_sorted|apply sortEntries_sorted|
       by rewrite !sortEntries_perm].
    intros x y Hx Hy Hxy Hyx.
    rewrite sortEntries_perm in Hx. rewrite sortEntries_perm, <- Hperm in Hy.
    apply (entries_told_apart props1); [done..|].
    apply Hapart; [by apply list_elem_of_fmap_2..|done|done]. }
  assert (Hpath : pathOf sourcePath name (VObject props1)
                  = pathOf sourcePath name (VObject props2)).
  { unfold staticToolPath. cbn [orElse truthyValue objectEntries].
    by rewrite Hsame. }
  split; [done|]. unfold executeStaticTool. by rewrite Hpath.
Qed.

End Ordered.

(** X22.  A tool folder with a valid name is served from that folder,
    unless its path looks like a URL: for a local source, [discoverTools]
    lists the folder as a tool of that very name, and [executeStaticTool],
    called with an empty argument object for the listed name as
    [createServer] does, turns it into the path [tools/<folder>.json].
    When that path does not start with ["http"], the file is read from the
    file system and parsed; when it does (as for the source [httpdocs]),
    [readFile] takes the path for a URL and the file is fetched, not
    read. *)
Theorem discovered_tool_runs_from_its_folder
    (sourcePath : string) (dirs : list string) (dir : string) :
  startsWith sourcePath "http" = false →
  fsReaddir (pathJoin [sourcePath; "tools"]) = Normal dirs →
  dir ∈ dirs →
  validToolName dir →
  let served := pathJoin [sourcePath; "tools"; dir] +:+ ".json" in
  ∃ t, t ∈ tools sourcePath false
       ∧ toolName t = dir
       ∧ toolDescription t = VString ("StaticMCP tool: " +:+ dir)
       ∧ pathOf sourcePath (toolName t) (VObject []) = Normal served
       ∧ (startsWith served "http" = false →
          execute sourcePath (toolName t) (VObject [])
          = (content ← fsReadFile served; parseJson content))
       ∧ (startsWith served "http" = true →
          execute sourcePath (toolName t) (VObject [])
          = (response ← fetchUrl served;
             content ← (if ok response then text response
                        else Thrown (Failure ("HTTP " +:+ EventStore.decimal
                                                (status response))));
             parseJson content)).
Proof.
  intros Hlocal Hlist Hin Hvalid served.
  assert (Hpath : pathOf sourcePath (sanitizeToolName dir) (VObject [])
                  = Normal served).
  { rewrite sanitizeToolName_fixes by done.
    unfold staticToolPath, joinPath. by rewrite Hlocal. }
  eexists {| toolName := sanitizeToolName dir |}.
  split; [|split; [by apply sanitizeToolName_fixes|split; [done|]]].
  - unfold discoverTools, joinPath, readDir. rewrite Hlocal.
    cbn [mbind Result_bind]. rewrite Hlist. cbn [mbind Result_bind orOnError].
    apply list_elem_of_fmap. by exists dir.
  - cbn [toolName]. split; [exact Hpath|].
    unfold executeStaticTool. rewrite Hpath. cbn [mbind Result_bind].
    unfold readFile. split; intros ->; [done|].
    by destruct (fetchUrl served) as [response|e].
Qed.

End ToolPaths.

(** ** The route and the manager together *)

Section RouteAndManager.
Import Bridge.

Variable isInitializeRequest : Json → bool.
Variable parsesAsURL : string → bool.
Variable resolve : string → string.

Local Abbreviation served := (λ config env,
  setupMcpRoutes parsesAsURL resolve config
    (λ req sourcePath isRemote,
       handleMcpRequest isInitializeRequest req sourcePath isRemote env)).

(** X23.  The handler [setupMcpRoutes] installs, run with the manager's
    [handleMcpRequest].  For a configuration that is neither hosted nor
    remote and names no source path, [path.resolve] refuses the missing
    path with a [TypeError] that nothing catches: the handler throws
    before the manager is called, and nothing has been written or changed.
    For every other configuration it completes normally.  In hosted mode
    it lets a request reach a transport, or create one, only when the
    [url] parameter is present, non-empty and parses as a URL. *)
Theorem mcp_route_throws_only_without_source_path
    (config : BridgeConfig) (env : Environment) (req : Request) (w : World) :
  let out := served config env req w in
  (isHostedMode config = false ∧ isRemoteUrl config = false
   ∧ staticSourcePath config = None →
   ∃ e, out = (Thrown (TypeError e), w))
  ∧ (isHostedMode config = true ∨ isRemoteUrl config = true
     ∨ (∃ configured, staticSourcePath config = Some configured) →
     out.1 = Normal ())
  ∧ (isHostedMode config = true →
     trace out.2 ≠ trace w ∨ heap out.2 ≠ heap w →
     ∃ u, queryUrl req = Some u ∧ u ≠ "" ∧ parsesAsURL u = true).
Proof.
  intros out. subst out. unfold setupMcpRoutes.
  assert (Hhandled : ∀ (sp : option string) rem,
            (handleMcpRequest isInitializeRequest req sp rem env w).1
            = Normal ()) by (intros; apply handle_total).
  destruct (isHostedMode config).
  - split; [by intros [? _]|].
    destruct (queryUrl req) as [u|] eqn:Hquery; cbn [default from_option id].
    + destruct (truthy (Some u)) eqn:Htruthy; cbn [negb].
      * destruct (parsesAsURL u) eqn:Hparse; cbn [negb].
        -- split; [done|]. intros _ _. exists u.
           split; [done|]. split; [|done]. by intros ->.
        -- split; [done|]. intros _ [Hmoved|Hmoved]; by destruct Hmoved.
      * split; [done|]. intros _ [Hmoved|Hmoved]; by destruct Hmoved.
    + split; [done|]. intros _ [Hmoved|Hmoved]; by destruct Hmoved.
  - destruct (isRemoteUrl config).
    + unfold mbind, M_bind, mret, M_ret.
      split; [by intros (_ & ? & _)|]. by split.
    + destruct (staticSourcePath config) as [configured|];
        unfold mbind, M_bind, pathResolve, mret, M_ret, throw.
      * split; [by intros (_ & _ & ?)|]. by split.
      * split; [intros _; by eexists|].
        split; [|done]. by intros [?|[?|[configured ?]]].
Qed.

End RouteAndManager.

(** ** The properties above on the sample sources *)

Section Samples.
Import Bridge Static.

Lemma byEncoding_total (a b : string) :
  (byEncoding a b ≤ 0)%Z ∨ (byEncoding b a ≤ 0)%Z.
Proof. unfold byEncoding. lia. Qed.

Lemma byEncoding_trans (a b c : string) :
  (byEncoding a b ≤ 0)%Z → (byEncoding b c ≤ 0)%Z → (byEncoding a c ≤ 0)%Z.
Proof. unfold byEncoding. lia. Qed.

Lemma byEncoding_antisym (a b : string) :
  (byEncoding a b ≤ 0)%Z → (byEncoding b a ≤ 0)%Z → a = b.
Proof.
  unfold byEncoding. intros Hab Hba. apply (inj encode). lia.
Qed.

Lemma discovered_resource_reads_its_file_witness :
  ∃ r, r ∈ discoverResources joinWithSlash appendToBase sourceFolder
             "/source" false
       ∧ uri r = "file://resource1"
       ∧ staticResourcePath joinWithSlash appendToBase "/source" (uri r)
         = Normal "/source/resources/resource1.json"
       ∧ readStaticResource joinWithSlash appendToBase noNetwork sourceFiles
           parseEmptyObject "/source" (uri r)
         = Normal (VObject []).
Proof.
  destruct (discovered_resource_reads_its_file joinWithSlash appendToBase
              noNetwork sourceFiles sourceFolder parseEmptyObject "/source"
              ["resource1.json"; "resource2.json"; "not-json.txt"]
              "resource1")
    as (r & Hlisted & _ & Huri & _ & Hpath & Hread & _).
  - reflexivity.
  - reflexivity.
  - left.
  - reflexivity.
  - exists r. split; [exact Hlisted|]. split; [exact Huri|].
    split; [exact Hpath|]. exact (Hread eq_refl).
Defined.

Lemma unreadable_manifest_exposes_nothing_witness :
  loadManifest joinWithSlash appendToBase noNetwork noFile noJson "/source"
  = defaultManifest
  ∧ discoverToolsFromManifest zodGetters
      (loadManifest joinWithSlash appendToBase noNetwork noFile noJson
         "/source")
    = Normal []
  ∧ discoverResourcesFromManifest decimalText
      (loadManifest joinWithSlash appendToBase noNetwork noFile noJson
         "/source")
    = Normal [].
Proof.
  apply (unreadable_manifest_exposes_nothing decimalText joinWithSlash
           appendToBase noNetwork noFile noJson zodGetters "/source").
  right. eexists. reflexivity.
Defined.


Lemma converter_throws_on_null_witness :
  ∃ e, jsonSchemaToMcpInputSchema zodGetters
         (VObject [("properties", VObject [("query", VNull)])])
       = Thrown e.
Proof.
  apply (converter_throws_on_null zodGetters
           (VObject [("properties", VObject [("query", VNull)])]) "query").
  right. right. left.
Defined.

Lemma manifest_tools_are_named_entries_witness :
  Forall (λ tool, validToolName (toolName tool))
         (orOnError (discoverToolsFromManifest zodGetters testManifest) []).
Proof.
  eapply Forall_impl.
  - apply (manifest_tools_are_named_entries zodGetters testManifest).
    reflexivity.
  - intros tool [Hvalid _]. exact Hvalid.
Defined.

Lemma manifest_tool_without_schema_throws_witness :
  ∃ e, discoverToolsFromManifest zodGetters brokenManifest = Thrown e.
Proof.
  apply (manifest_tool_without_schema_throws zodGetters brokenManifest
           [VObject [("name", VString "valid-tool")]]
           (VObject [("name", VString "valid-tool")])).
  - reflexivity.
  - left.
  - right. split; [reflexivity | left; reflexivity].
Defined.

Lemma manifest_resources_throw_exactly_when_unreadable_witness :
  (∃ e, discoverResourcesFromManifest decimalText brokenManifest = Thrown e)
  ∧ (∃ e, discoverResourcesFromManifest decimalText unrenderableManifest
          = Thrown e).
Proof.
  split.
  - apply (proj2 (manifest_resources_throw_exactly_when_unreadable
                    decimalText brokenManifest
                    [VObject [("name", VString "name-only-resource")]; VNull]
                    eq_refl)).
    exists VNull. split; [right; left | left; reflexivity].
  - apply (proj2 (manifest_resources_throw_exactly_when_unreadable
                    decimalText unrenderableManifest
                    [VObject [("name", VObject [("toString", VNumber 1)])]]
                    eq_refl)).
    exists (VObject [("name", VObject [("toString", VNumber 1)])]).
    split; [left|]. right. left.
    split; [reflexivity|]. split; [reflexivity|]. eexists. reflexivity.
Defined.

Lemma manifest_resources_have_every_field_witness :
  Forall (λ r, truthyValue (declaredUri r) = true)
         (orOnError (discoverResourcesFromManifest decimalText testManifest)
                    []).
Proof.
  eapply Forall_impl.
  - apply (manifest_resources_have_every_field decimalText testManifest).
    reflexivity.
  - intros r [Huri _]. exact Huri.
Defined.

Lemma joinPath_completes_remote_base_witness :
  joinPath joinWithSlash appendToBase "https://example.com" ["tools"; "search"]
  = Normal "https://example.com/tools/search".
Proof.
  destruct (joinPath_completes_remote_base joinWithSlash appendToBase
              "https://example.com" ["tools"; "search"]) as [_ Hresolved].
  - reflexivity.
  - reflexivity.
  - exact Hresolved.
Defined.

Lemma executeStaticTool_ignores_argument_order_witness :
  staticToolPath decimalText joinWithSlash appendToBase byEncoding
    "/source" "test-tool"
    (VObject [("param2", VString "value2"); ("param1", VString "value1")])
  = staticToolPath decimalText joinWithSlash appendToBase byEncoding
      "/source" "test-tool"
      (VObject [("param1", VString "value1"); ("param2", VString "value2")]).
Proof.
  destruct (executeStaticTool_ignores_argument_order decimalText joinWithSlash
              appendToBase noNetwork noFile noJson byEncoding
              byEncoding_total byEncoding_trans "/source" "test-tool"
              [("param2", VString "value2"); ("param1", VString "value1")]
              [("param1", VString "value1"); ("param2", VString "value2")])
    as [Hpath _].
  - exact (bool_decide_unpack (NoDup ["param2"; "param1"]) I).
  - intros a b _ _. apply byEncoding_antisym.
  - apply Permutation_swap.
  - exact Hpath.
Defined.

Lemma discovered_tool_runs_from_its_folder_witness :
  ∃ t, t ∈ discoverTools joinWithSlash appendToBase noNetwork sourceFiles
             sourceFolder parseEmptyObject "/source" false
       ∧ toolName t = "tool1"
       ∧ staticToolPath decimalText joinWithSlash appendToBase byEncoding
           "/source" (toolName t) (VObject [])
         = Normal "/source/tools/tool1.json"
       ∧ executeStaticTool decimalText joinWithSlash appendToBase noNetwork
           sourceFiles parseEmptyObject byEncoding
           "/source" (toolName t) (VObject [])
         = Normal (VObject []).
Proof.
  destruct (discovered_tool_runs_from_its_folder decimalText joinWithSlash
              appendToBase noNetwork sourceFiles sourceFolder parseEmptyObject
              byEncoding "/source" ["tool1"; "tool2"] "tool1")
    as (t & Hlisted & Hname & _ & Hpath & Hread & _).
  - reflexivity.
  - reflexivity.
  - left.
  - split; [simpl; lia | repeat constructor].
  - exists t. split; [exact Hlisted|]. split; [exact Hname|].
    split; [exact Hpath|]. exact (Hread eq_refl).
Defined.

End Samples.
